(** * pyALGENCAN: the ALGENCAN adapter of pyOpt

    A shallow embedding of [pyOpt/pyALGENCAN/pyALGENCAN.py]: the constructor
    [ALGENCAN.__init__], the set-up and tear-down of [ALGENCAN.__solve__] and
    its two working callbacks [evalfc] and [evalgjac].

    Python values are modelled as the code uses them: exceptions are an
    inductive type, a call that may raise returns an [outcome], local
    variables that may be read before they are assigned are [option]s,
    [numpy] buffers are lists updated by index, dictionaries are [gmap]s and
    the attributes of [self] that change during a solve are fields of an
    explicit [state] that is threaded through every call. *)

From Stdlib Require Import ZArith Ascii String List.
From stdpp Require Import base option list gmap strings fin_maps pretty.

Open Scope string_scope.
Open Scope list_scope.

(** ** Exceptions and outcomes *)

(** The exception classes that the adapter raises itself, those the Python
    interpreter raises on its behalf, and [ConfigurationError], which the
    specification names and the adapter never raises. *)
Inductive exn : Type :=
| ValueError (msg : string)
| IOError (msg : string)
| NotImplementedError (msg : string)
| ConfigurationError (msg : string)
| UnboundLocalError (var : string)
| AttributeError (attr : string)
| KeyError (key : string)
| IndexError
| TypeError (msg : string)
| OSError (path : string).

(** What a call does: it returns, it raises, or (a collective broadcast whose
    root never sends) it never comes back. *)
Inductive outcome (A : Type) : Type :=
| Ok (a : A)
| Raise (e : exn)
| Blocked.
Arguments Ok {A} a.
Arguments Raise {A} e.
Arguments Blocked {A}.

(** ** Strings *)

(** [str.upper] and [str.lower] on the ASCII range. *)
Definition upper_char (c : ascii) : ascii :=
  let n := nat_of_ascii c in
  if (97 <=? n)%nat && (n <=? 122)%nat then ascii_of_nat (n - 32) else c.

Definition lower_char (c : ascii) : ascii :=
  let n := nat_of_ascii c in
  if (65 <=? n)%nat && (n <=? 90)%nat then ascii_of_nat (n + 32) else c.

Fixpoint upper (s : string) : string :=
  match s with
  | EmptyString => EmptyString
  | String c s' => String (upper_char c) (upper s')
  end.

Fixpoint lower (s : string) : string :=
  match s with
  | EmptyString => EmptyString
  | String c s' => String (lower_char c) (lower s')
  end.

(** [needle in haystack] on strings. *)
Fixpoint is_prefix (p s : string) : bool :=
  match p, s with
  | EmptyString, _ => true
  | String a p', String b s' => bool_decide (a = b) && is_prefix p' s'
  | String _ _, EmptyString => false
  end.

Fixpoint contains (needle haystack : string) : bool :=
  is_prefix needle haystack ||
  match haystack with
  | EmptyString => false
  | String _ rest => contains needle rest
  end.

(** ** The constructor *)

Module Init.

(** [ALGENCAN.__init__(self, pll_type=None, ...)], up to the call of
    [Optimizer.__init__]: the only attribute it sets itself is [self.poa]. *)
Definition __init__ (pll_type : option string) : outcome bool :=
  match pll_type with
  | None => Ok false
  | Some s =>
      if bool_decide (upper s = "POA") then Ok true
      else Raise (ValueError "pll_type must be either None or 'POA'")
  end.

(** The eight spellings of POA. *)
Definition poa_spellings : list string :=
  ["POA"; "POa"; "PoA"; "Poa"; "pOA"; "pOa"; "poA"; "poa"].

(** The table [informs] that [__init__] hands to [Optimizer.__init__],
    which keeps it as [self.informs]. *)
Definition informs : gmap Z string :=
  <[0%Z := "Solution was found."]>
  (<[1%Z := "Stationary or infeasible point was found."]>
  (<[2%Z := "penalty parameter is too large infeasible or badly scaled problem"]>
  (<[3%Z := "Maximum of iterations reached."]> ∅))).

End Init.

(** * The evaluation model *)

(** The adapter only moves floating-point values around (from the user model
    and the history log into the buffers of the solver); the one operation
    it applies to a float is [int(...)].  The float type is therefore a
    parameter. *)
Class PyFloat (F : Type) := { float_to_int : F → Z }.

Section Model.
Context {F : Type} `{PyFloat F}.

(** ** Values *)

(** A scalar handed back by the user model: a real, a built-in [complex],
    a [numpy.complex128] (a subclass of [complex] that has [astype]), or a
    [numpy.complex64], which has [astype] and holds a complex number but
    does not derive from [complex].  A complex [ndarray] answers the two
    questions asked below as a [numpy.complex64] does. *)
Inductive num : Type :=
| Real (r : F)
| PyComplex (re im : F)
| NpComplex (re im : F)
| NpComplex64 (re im : F).

Definition matrix : Type := list (list num).

(** [isinstance(v, complex)] *)
Definition isinstance_complex (v : num) : bool :=
  match v with
  | Real _ | NpComplex64 _ _ => false
  | PyComplex _ _ | NpComplex _ _ => true
  end.

(** [v.astype(float)]: numpy scalars drop the imaginary part, the built-in
    [complex] has no such attribute. *)
Definition astype_float (v : num) : outcome num :=
  match v with
  | Real r => Ok (Real r)
  | NpComplex re _ | NpComplex64 re _ => Ok (Real re)
  | PyComplex _ _ => Raise (AttributeError "astype")
  end.

(** One entry of the grouped view [xg]: a scalar or a sub-sequence. *)
Inductive gval : Type :=
| Scalar (v : F)
| Slice (l : list F).

(** What the user model is called with: [x] itself, or the dictionary
    [xg]. *)
Inductive xview : Type :=
| XFlat (x : list F)
| XGroups (xg : gmap string gval).

(** A value passed to [log_file.write]. *)
Inductive pyobj : Type :=
| PVec (x : list F)
| PNum (v : num)
| PNums (l : list num)
| PInt (z : Z)
| PMat (a : matrix).

(** A value passed to [Bcast]. *)
Inductive msg : Type :=
| MFlag (b : bool)
| MVals (ff : num) (gg : list num) (fail : Z)
| MGrads (dff dgg : matrix).

(** What a solve does to the world outside the adapter, in order. *)
Inductive event : Type :=
| EvPrint (s : string)
| EvFlush
| EvRead (ident : list string)
| EvHosClose
| EvLogClose
| EvBcast (m : msg)
| EvRecv (m : msg)
| EvObjFun (xn : xview)
| EvGetGrad (x : list F)
| EvWrite (value : pyobj) (ident : string)
| EvAlgencan
| EvCloseUnit
| EvAddSol (sol_inform : Z * string) (sol_vars : list F)
    (sol_objs sol_cons : list num) (sol_lambda : list F).

(** ** The outcome monad: code that may raise but touches no state *)

#[export] Instance outcome_ret : MRet outcome := λ A a, Ok a.
#[export] Instance outcome_bind : MBind outcome := λ A B k o,
  match o with
  | Ok a => k a
  | Raise e => Raise e
  | Blocked => Blocked
  end.

(** Reading a local variable that may not have been assigned yet. *)
Definition get_local {A : Type} (var : string) (v : option A) : outcome A :=
  match v with
  | Some a => Ok a
  | None => Raise (UnboundLocalError var)
  end.

(** [l[i]] and [l[i] = v] on a sequence: out of range is an [IndexError]. *)
Definition getitem {A : Type} (l : list A) (i : nat) : outcome A :=
  match l !! i with
  | Some a => Ok a
  | None => Raise IndexError
  end.

Definition setitem {A : Type} (l : list A) (i : nat) (v : A) : outcome (list A) :=
  if bool_decide (i < length l)%nat then Ok (<[i := v]> l) else Raise IndexError.

(** [d[k]] on a dictionary. *)
Definition getkey {A : Type} (d : gmap string A) (k : string) : outcome A :=
  match d !! k with
  | Some a => Ok a
  | None => Raise (KeyError k)
  end.

(** [x[start:end]] *)
Definition slice {A : Type} (l : list A) (start stop : nat) : list A :=
  take (stop - start) (drop start l).

(** [a.reshape((rows, cols))] of a flat array. *)
Fixpoint chunks {A : Type} (rows cols : nat) (l : list A) : list (list A) :=
  match rows with
  | O => []
  | S rows' => take cols l :: chunks rows' cols (drop cols l)
  end.

Definition reshape (a : list F) (rows cols : nat) : outcome matrix :=
  if bool_decide (length a = rows * cols)%nat
  then Ok (chunks rows cols (Real <$> a))
  else Raise (ValueError "cannot reshape array").

(** [a[i, j]] *)
Definition getitem2 (a : matrix) (i j : nat) : outcome num :=
  row ← getitem a i; getitem row j.

(** ** The history log *)

(** Modelled from the spec: the class [History] of [pyOpt.history] is not
    part of this file.  A log holds, for every field identifier, the arrays
    written under it, oldest first.  [read] is sequential: it hands out
    the next unread array of every requested field, or reports the end of
    the log, and once it has reported the end it keeps doing so. *)
Record History : Type := mkHistory {
  filename : string;
  unread : gmap string (list (list F));
  exhausted : bool;
}.

Fixpoint next_records (ident : list string) (h : gmap string (list (list F)))
  : option (gmap string (list (list F)) * gmap string (list (list F))) :=
  match ident with
  | [] => Some (∅, h)
  | id :: ident' =>
      match h !! id with
      | Some (r :: rest) =>
          '(vals, h') ← next_records ident' (<[id := rest]> h);
          Some (<[id := [r]]> vals, h')
      | _ => None
      end
  end.

Definition History_read (ident : list string) (h : History)
  : (gmap string (list (list F)) * bool) * History :=
  if exhausted h then ((∅, true), h)
  else match next_records ident (unread h) with
       | Some (vals, rest) =>
           ((vals, false), mkHistory (filename h) rest false)
       | None => ((∅, true), mkHistory (filename h) (unread h) true)
       end.

(** ** State *)

(** What a solve can change: the two history attributes of [self], the
    cursor of the log that is replayed, the broadcasts that are waiting
    to be received (on a rank other than the root), the files on disk, and
    the trace of calls made to the outside. *)
Record state : Type := mkState {
  h_start : bool;
  sto_hst : bool;
  hos_file : History;
  inbox : list msg;
  fs : gmap string string;
  trace : list event;
}.

Definition set_h_start (b : bool) (st : state) : state :=
  mkState b (sto_hst st) (hos_file st) (inbox st) (fs st) (trace st).
Definition set_sto_hst (b : bool) (st : state) : state :=
  mkState (h_start st) b (hos_file st) (inbox st) (fs st) (trace st).
Definition set_hos_file (h : History) (st : state) : state :=
  mkState (h_start st) (sto_hst st) h (inbox st) (fs st) (trace st).
Definition set_inbox (q : list msg) (st : state) : state :=
  mkState (h_start st) (sto_hst st) (hos_file st) q (fs st) (trace st).
Definition set_fs (d : gmap string string) (st : state) : state :=
  mkState (h_start st) (sto_hst st) (hos_file st) (inbox st) d (trace st).
Definition add_event (e : event) (st : state) : state :=
  mkState (h_start st) (sto_hst st) (hos_file st) (inbox st) (fs st)
          (trace st ++ [e]).

(** ** The monad of the adapter: state that survives an exception *)

Definition M (A : Type) : Type := state → outcome A * state.

#[export] Instance M_ret : MRet M := λ A a st, (Ok a, st).
#[export] Instance M_bind : MBind M := λ A B k m st,
  match m st with
  | (Ok a, st') => k a st'
  | (Raise e, st') => (Raise e, st')
  | (Blocked, st') => (Blocked, st')
  end.

Definition lift {A : Type} (o : outcome A) : M A := λ st, (o, st).
Definition raise {A : Type} (e : exn) : M A := λ st, (Raise e, st).
Definition blocked {A : Type} : M A := λ st, (Blocked, st).
Definition gets {A : Type} (f : state → A) : M A := λ st, (Ok (f st), st).
Definition modify (f : state → state) : M unit := λ st, (Ok tt, f st).
Definition emit (e : event) : M unit := modify (add_event e).
Definition when (b : bool) (m : M unit) : M unit :=
  if b then m else mret tt.

(** ** Calls to the outside *)

(** [hos_file.read(ident=...)], [hos_file.close()] *)
Definition hos_read (ident : list string)
  : M (gmap string (list (list F)) * bool) :=
  emit (EvRead ident);;
  h ← gets hos_file;
  let '(r, h') := History_read ident h in
  modify (set_hos_file h');;
  mret r.

Definition hos_close : M unit := emit EvHosClose.

(** [log_file.write(value, ident)], [log_file.close()] *)
Definition log_write (value : pyobj) (ident : string) : M unit :=
  emit (EvWrite value ident).

Definition log_close : M unit := emit EvLogClose.

(** [Bcast(value, root=0)]: the root hands its own value on and gets it
    back; every other rank gets what the root sent, and waits for ever if
    the root sends nothing. *)
Definition Bcast (myrank : nat) (value : msg) : M msg :=
  if (myrank =? 0)%nat then emit (EvBcast value);; mret value
  else
    q ← gets inbox;
    match q with
    | received :: q' =>
        modify (set_inbox q');; emit (EvRecv received);; mret received
    | [] => blocked
    end.

(** The truth value of what [Bcast] returned, and its unpacking into two
    or three names. *)
Definition truthy (m : msg) : bool :=
  match m with
  | MFlag b => b
  | MVals _ _ _ | MGrads _ _ => true
  end.

Definition unpack3 (m : msg) : outcome (num * list num * Z) :=
  match m with
  | MVals ff gg fail => Ok (ff, gg, fail)
  | MFlag _ => Raise (TypeError "cannot unpack non-iterable bool object")
  | MGrads _ _ => Raise (ValueError "not enough values to unpack")
  end.

Definition unpack2 (m : msg) : outcome (matrix * matrix) :=
  match m with
  | MGrads dff dgg => Ok (dff, dgg)
  | MFlag _ => Raise (TypeError "cannot unpack non-iterable bool object")
  | MVals _ _ _ => Raise (ValueError "too many values to unpack")
  end.

(** [os.path.isfile], [os.remove], [os.rename] *)
Definition os_path_isfile (path : string) : M bool :=
  gets (λ st, bool_decide (is_Some (fs st !! path))).

Definition os_remove (path : string) : M unit :=
  d ← gets fs;
  match d !! path with
  | Some _ => modify (set_fs (delete path d))
  | None => raise (OSError path)
  end.

Definition os_rename (src dst : string) : M unit :=
  d ← gets fs;
  match d !! src with
  | Some content => modify (set_fs (<[dst := content]> (delete src d)))
  | None => raise (OSError src)
  end.

(** ** The optimization problem *)

Record variable : Type := mkVariable {
  v_name : string;
  v_type : string;      (* 'c', 'i' or 'd' *)
  v_lower : F;
  v_upper : F;
  v_value : F;
}.

Record objective : Type := mkObjective { o_name : string; o_value : num }.

Record constraint : Type := mkConstraint {
  c_name : string;
  c_type : string;      (* 'e' or 'i' *)
}.

Record vargroup : Type := mkVargroup {
  g_name : string;
  g_ids : list (string * nat);
}.

(** The dictionaries of [Optimization] are kept in insertion order; only
    their values, in that order, are ever used. *)
Record problem : Type := mkProblem {
  prob_name : string;
  variables : list variable;
  objectives : list objective;
  constraints : list constraint;
  use_groups : bool;
  vargroups : list vargroup;
  obj_fun : xview → outcome (num * list num * Z);
}.

(** [opt_problem.obj_fun(xn, *args, **kwargs)] *)
Definition call_obj_fun (p : problem) (xn : xview) : M (num * list num * Z) :=
  emit (EvObjFun xn);; lift (obj_fun p xn).

(** ** Variable groups *)

(** Lines 540-548 of [__solve__]: the table [group_ids], built once. *)
Fixpoint make_group_ids (groups : list vargroup) (k : nat)
    (group_ids : gmap string (nat * nat)) : gmap string (nat * nat) :=
  match groups with
  | [] => group_ids
  | g :: groups' =>
      let group_len := length (g_ids g) in
      make_group_ids groups' (k + group_len)
        (<[g_name g := (k, k + group_len)]> group_ids)
  end.

(** Lines 388-398 of [evalfc]: one entry of [xg], the dictionary [xg], and
    the view [xn] that the user model is given. *)
Definition group_entry (x : list F) (ids : nat * nat) : outcome gval :=
  if (ids.2 - ids.1 =? 1)%nat
  then v ← getitem x ids.1; mret (Scalar v)
  else mret (Slice (slice x ids.1 ids.2)).

Definition expand_groups (group_ids : gmap string (nat * nat)) (x : list F)
  : outcome (gmap string gval) :=
  map_fold
    (λ group ids acc, xg ← acc; v ← group_entry x ids;
                      mret (<[group := v]> xg))
    (Ok ∅) group_ids.

Definition group_view (p : problem) (group_ids : gmap string (nat * nat))
    (x : list F) : outcome xview :=
  if use_groups p
  then xg ← expand_groups group_ids x; mret (XGroups xg)
  else mret (XFlat x).

(** ** The solver object and what its callbacks close over *)

(** What opening the log named by [hot_start] gives: the log, or the
    reason why it cannot be replayed (it is missing, or corrupt). *)
Inductive opened_log : Type :=
| Readable (log : History)
| Unreadable (why : string).

(** What [_setHistory] is asked for: whether to record, and the log to
    replay, if any. *)
Record history_request : Type := mkHistoryRequest {
  store_hst : bool;
  hot_start : option opened_log;
}.

Record backend_args : Type := mkBackendArgs {
  a_n : nat;
  a_xx : list F;
  a_xl : list F;
  a_xu : list F;
  a_m : nat;
  a_equatn : list bool;
  a_linear : list bool;
}.

Record backend_result : Type := mkBackendResult {
  r_xx : list F;
  r_ff : list num;
  r_lm : list F;
  r_inform : Z;
}.

Definition fc_callback : Type :=
  nat → list F → num → nat → list num → Z → M (num * list num * Z).

Definition gjac_callback : Type :=
  nat → list F → list num → nat → list Z → list Z → list num → nat → Z →
  M (list num * list Z * list Z * list num * nat * Z).

(** [self], the arguments of [__solve__], and the two collaborators that
    live outside this file: [Gradient.getGrad] and the native routine
    [algencan.algencan], which drives the callbacks as it sees fit. *)
Record solver : Type := mkSolver {
  poa : bool;
  sens_mode : string;
  store_sol : bool;
  iprint : Z;
  ifile : string;
  mpi4py : option nat;   (* the rank of this process, if MPI can be imported *)
  history : history_request;
  getGrad : list F → gmap string (nat * nat) → list num → list num →
            outcome (matrix * matrix);
  algencan : backend_args → fc_callback → gjac_callback → M backend_result;
}.

(** The variables of [__solve__] that [evalfc] and [evalgjac] capture. *)
Record closure : Type := mkClosure {
  pll : bool;
  myrank : nat;
  group_ids : gmap string (nat * nat);
}.

(** [_on_flushFiles] *)
Definition flushFiles (s : solver) : M unit :=
  when (0 <=? iprint s)%Z (emit EvFlush).

(** ** The callbacks *)

(** [vals[ident][0]] *)
Definition vals_array (vals : gmap string (list (list F))) (ident : string)
  : outcome (list F) :=
  l ← getkey vals ident; getitem l 0.

(** [v.astype(float) if isinstance(v, complex) else v] *)
Definition coerce (v : num) : outcome num :=
  if isinstance_complex v then astype_float v else Ok v.

(** Lines 441-445 of [evalfc]. *)
Fixpoint assign_constraints (range : list nat) (gg : option (list num))
    (g : list num) : outcome (list num) :=
  match range with
  | [] => Ok g
  | i :: range' =>
      gg' ← get_local "gg" gg;
      v ← getitem gg' i;
      v' ← coerce v;
      g' ← setitem g i v';
      assign_constraints range' gg g'
  end.

(** [evalfc(n, x, f, m, g, flag)], lines 372-447. *)
Definition evalfc (s : solver) (p : problem) (c : closure) : fc_callback :=
  λ n x f m g flag,
  (* Variables Groups Handling *)
  xn ← lift (group_view p (group_ids c) x);
  (* Flush Output Files *)
  flushFiles s;;
  (* Evaluate User Function *)
  let flag := 0%Z in
  hs ← gets h_start;
  '(ff, gg, flag) ←
    (if (myrank c =? 0)%nat && hs then
       '(vals, hist_end) ← hos_read ["obj"; "con"; "fail"];
       if hist_end : bool then
         modify (set_h_start false);; hos_close;;
         mret (None, None, flag)
       else
         obj ← lift (vals_array vals "obj");
         ff ← lift (getitem obj 0);
         gg ← lift (vals_array vals "con");
         fl ← lift (vals_array vals "fail");
         fl0 ← lift (getitem fl 0);
         mret (Some (Real ff), Some (Real <$> gg), float_to_int fl0)
     else mret (None, None, flag));
  when (pll c)
    (hs ← gets h_start;
     b ← Bcast (myrank c) (MFlag hs);
     modify (set_h_start (truthy b)));;
  hs ← gets h_start;
  let fail : option Z := None in
  '(ff, gg, fail) ←
    (if hs && pll c then
       ff' ← lift (get_local "ff" ff);
       gg' ← lift (get_local "gg" gg);
       fail' ← lift (get_local "fail" fail);
       r ← Bcast (myrank c) (MVals ff' gg' fail');
       '(ff, gg, fail) ← lift (unpack3 r);
       mret (Some ff, Some gg, Some fail)
     else if negb hs then
       '(ff, gg, fail) ← call_obj_fun p xn;
       mret (Some ff, Some gg, Some fail)
     else mret (ff, gg, fail));
  (* Store History *)
  sto ← gets sto_hst;
  when ((myrank c =? 0)%nat && sto)
    (log_write (PVec x) "x";;
     ff' ← lift (get_local "ff" ff);
     log_write (PNum ff') "obj";;
     gg' ← lift (get_local "gg" gg);
     log_write (PNums gg') "con";;
     fail' ← lift (get_local "fail" fail);
     log_write (PInt fail') "fail");;
  (* Objective Assigment *)
  ff' ← lift (get_local "ff" ff);
  f ← lift (coerce ff');
  (* Constraints Assigment *)
  g ← lift (assign_constraints (seq 0 (length (constraints p))) gg g);
  fail' ← lift (get_local "fail" fail);
  mret (f, g, fail').

(** Lines 507-508 of [evalgjac]. *)
Fixpoint assign_objective_gradient (range : list nat) (dff : option matrix)
    (jfval : list num) : outcome (list num) :=
  match range with
  | [] => Ok jfval
  | i :: range' =>
      dff' ← get_local "dff" dff;
      v ← getitem2 dff' 0 i;
      jfval' ← setitem jfval i v;
      assign_objective_gradient range' dff jfval'
  end.

(** Lines 511-517 of [evalgjac]: the body of the inner loop, the inner
    loop over the variables and the outer loop over the constraints.  The
    buffers and the running count [jcnnz] are passed along. *)
Definition jac_buffers : Type := list Z * list Z * list num * nat.

Fixpoint jac_row (jj : nat) (range : list nat) (dgg : option matrix)
    (b : jac_buffers) : outcome jac_buffers :=
  match range with
  | [] => Ok b
  | ii :: range' =>
      let '(jcfun, jcvar, jcval, jcnnz) := b in
      jcfun' ← setitem jcfun jcnnz (Z.of_nat jj + 1)%Z;
      jcvar' ← setitem jcvar jcnnz (Z.of_nat ii + 1)%Z;
      dgg' ← get_local "dgg" dgg;
      v ← getitem2 dgg' jj ii;
      jcval' ← setitem jcval jcnnz v;
      jac_row jj range' dgg (jcfun', jcvar', jcval', (jcnnz + 1)%nat)
  end.

Fixpoint jac_rows (rows cols : list nat) (dgg : option matrix)
    (b : jac_buffers) : outcome jac_buffers :=
  match rows with
  | [] => Ok b
  | jj :: rows' =>
      b' ← jac_row jj cols dgg b;
      jac_rows rows' cols dgg b'
  end.

(** [evalgjac(n, x, jfval, m, jcfun, jcvar, jcval, jcnnz, flag)], lines
    452-519. *)
Definition evalgjac (s : solver) (p : problem) (c : closure)
  : gjac_callback :=
  λ n x jfval m jcfun jcvar jcval jcnnz flag,
  let nobj := length (objectives p) in
  let nvar := length (variables p) in
  let ncon := length (constraints p) in
  hs ← gets h_start;
  '(dff, dgg) ←
    (if hs : bool then
       '(dff, dgg) ←
         (if (myrank c =? 0)%nat then
            '(vals, hist_end) ← hos_read ["grad_obj"; "grad_con"];
            if hist_end : bool then
              modify (set_h_start false);; hos_close;;
              mret (None, None)
            else
              a ← lift (vals_array vals "grad_obj");
              dff ← lift (reshape a nobj nvar);
              b ← lift (vals_array vals "grad_con");
              dgg ← lift (reshape b ncon nvar);
              mret (Some dff, Some dgg)
          else mret (None, None));
       when (pll c)
         (hs ← gets h_start;
          b ← Bcast (myrank c) (MFlag hs);
          modify (set_h_start (truthy b)));;
       hs ← gets h_start;
       if hs && pll c then
         dff' ← lift (get_local "dff" dff);
         dgg' ← lift (get_local "dgg" dgg);
         r ← Bcast (myrank c) (MGrads dff' dgg');
         '(dff, dgg) ← lift (unpack2 r);
         mret (Some dff, Some dgg)
       else mret (dff, dgg)
     else mret (None, None));
  hs ← gets h_start;
  let fail : option Z := None in
  '(dff, dgg, fail) ←
    (if negb hs then
       '(ff, gg, fail) ← call_obj_fun p (XFlat x);
       emit (EvGetGrad x);;
       '(dff, dgg) ← lift (getGrad s x (group_ids c) [ff] gg);
       mret (Some dff, Some dgg, Some fail)
     else mret (dff, dgg, fail));
  (* Store History *)
  sto ← gets sto_hst;
  when (sto && (myrank c =? 0)%nat)
    (dff' ← lift (get_local "dff" dff);
     log_write (PMat dff') "grad_obj";;
     dgg' ← lift (get_local "dgg" dgg);
     log_write (PMat dgg') "grad_con");;
  (* Objective Gradient Assignment *)
  jfval ← lift (assign_objective_gradient (seq 0 nvar) dff jfval);
  (* Constraint Gradient Assignment *)
  let jcnnz := 0%nat in
  '(jcfun, jcvar, jcval, jcnnz) ←
    lift (jac_rows (seq 0 ncon) (seq 0 nvar) dgg
            (jcfun, jcvar, jcval, jcnnz));
  fail' ← lift (get_local "fail" fail);
  mret (jfval, jcfun, jcvar, jcval, jcnnz, fail').

(** ** [__solve__] *)

(** Modelled from the spec: [Optimizer._setHistory] is defined in
    [pyOpt.optimizer].  It selects the role of the history store for this
    solve: recording, replaying an existing log, or both, in which case
    the recording goes to a temporary log next to the one that is
    replayed.  Opening a log to replay fails with [IOError] when the log
    is missing or corrupt, and that ends the solve.  Otherwise it sets
    [self.sto_hst] and [self.h_start] and returns [tmp_file]. *)
Definition _setHistory (r : history_request) : M bool :=
  match hot_start r with
  | Some (Unreadable why) => raise (IOError why)
  | Some (Readable log) =>
      modify (set_sto_hst (store_hst r));;
      modify (set_h_start true);; modify (set_hos_file log);;
      mret (store_hst r)
  | None =>
      modify (set_sto_hst (store_hst r));;
      modify (set_h_start false);; mret false
  end.

(** Lines 522-534: Variables Handling. *)
Fixpoint variables_handling (vars : list variable) (xl xu xx : list F)
  : outcome (list F * list F * list F) :=
  match vars with
  | [] => Ok (xl, xu, xx)
  | v :: vars' =>
      if bool_decide (v_type v = "c") then
        variables_handling vars'
          (xl ++ [v_lower v]) (xu ++ [v_upper v]) (xx ++ [v_value v])
      else if bool_decide (v_type v = "i") then
        Raise (IOError "NLPQL cannot handle integer design variables")
      else if bool_decide (v_type v = "d") then
        Raise (IOError "NLPQL cannot handle discrete design variables")
      else variables_handling vars' xl xu xx
  end.

(** Lines 550-564: Constraints Handling. *)
Fixpoint constraint_kinds (cons : list constraint) (equatn linear : list bool)
  : list bool * list bool :=
  match cons with
  | [] => (equatn, linear)
  | k :: cons' =>
      let equatn' :=
        if bool_decide (c_type k = "e") then (equatn ++ [true])%list
        else if bool_decide (c_type k = "i") then (equatn ++ [false])%list
        else equatn in
      constraint_kinds cons' equatn' (linear ++ [false])%list
  end.

Definition constraints_handling (cons : list constraint)
  : outcome (list bool * list bool) :=
  let m := length cons in
  if (0 <? m)%nat then Ok (constraint_kinds cons [] [])
  else Raise (IOError
         "ALGENCAN support for unconstrained problems not implemented yet").

(** Lines 650-654: the four file operations that put the temporary log in
    the place of the one that was replayed, and a run of such operations
    one after the other. *)
Definition promotion (name : string) : list (M unit) :=
  [ os_remove (name +:+ ".cue");
    os_remove (name +:+ ".bin");
    os_rename (name +:+ "_tmp.cue") (name +:+ ".cue");
    os_rename (name +:+ "_tmp.bin") (name +:+ ".bin") ].

Fixpoint run (steps : list (M unit)) : M unit :=
  match steps with
  | [] => mret tt
  | step :: steps' => step;; run steps'
  end.

(** Lines 645-654. *)
Definition close_history (myrank : nat) (tmp_file : bool) : M unit :=
  when (myrank =? 0)%nat
    (sto ← gets sto_hst;
     when sto
       (log_close;;
        when tmp_file
          (hos_close;;
           name ← gets (λ st, filename (hos_file st));
           run (promotion name)))).

(** [_on_getInform(infocode)], line 744, to which [getInform] of the base
    class hands the code of the solver. *)
Definition _on_getInform (infocode : Z) : outcome string :=
  match Init.informs !! infocode with
  | Some text => Ok text
  | None => Raise (KeyError (pretty infocode))
  end.

(** Lines 676-680, 682-686 and 688-693: the loops that give the entries of
    a copied dictionary, in order, the values [values[0]], [values[1]],
    ...; the result is the list of the values that were assigned. *)
Fixpoint solution_values {A : Type} (range : list nat) (values : list A)
  : outcome (list A) :=
  match range with
  | [] => Ok []
  | i :: range' =>
      v ← getitem values i;
      vs ← solution_values range' values;
      mret (v :: vs)
  end.

(** Lines 661-716: Store Results.  [xx], [ff], [lm] and [inform] are the
    buffers as the solver left them, [gg] the constraint values of the
    last evaluation. *)
Definition store_results (s : solver) (p : problem) (r : backend_result)
    (gg : list num) : M (list num * list F * (Z * string)) :=
  text ← lift (_on_getInform (r_inform r));
  let sol_inform := (r_inform r, text) in
  when (store_sol s)
    (sol_vars ← lift (solution_values (seq 0 (length (variables p))) (r_xx r));
     sol_objs ← lift (solution_values (seq 0 (length (objectives p))) (r_ff r));
     sol_cons ←
       (if (0 <? length (constraints p))%nat
        then lift (solution_values (seq 0 (length (constraints p))) gg)
        else mret []);
     emit (EvAddSol sol_inform sol_vars sol_objs sol_cons (r_lm r)));;
  mret (r_ff r, r_xx r, sol_inform).

(** [__solve__(self, opt_problem, ...)], lines 142-175 and 521-716.  The
    nine callbacks that only set [flag = -1] are left out. *)
Definition __solve__ (s : solver) (p : problem)
  : M (list num * list F * (Z * string)) :=
  let pgc := bool_decide (lower (sens_mode s) = "pgc") in
  when (poa s && pgc)
    (raise (NotImplementedError
       "pyALGENCAN - Current implementation only allows single level parallelization, either 'POA' or 'pgc'"));;
  '(pll, myrank) ←
    (if poa s || pgc then
       match mpi4py s with
       | Some rank => mret (true, rank)
       | None =>
           emit (EvPrint
             "pyALGENCAN: Parallel objective Function Analysis requires mpi4py");;
           raise (UnboundLocalError "MPI")
       end
     else mret (false, 0%nat));
  tmp_file ← _setHistory (history s);
  (* Variables Handling *)
  let n := length (variables p) in
  '(xl, xu, xx) ← lift (variables_handling (variables p) [] [] []);
  (* Variables Groups Handling *)
  let group_ids :=
    if use_groups p then make_group_ids (vargroups p) 0 ∅ else ∅ in
  (* Constraints Handling *)
  let m := length (constraints p) in
  '(equatn, linear) ← lift (constraints_handling (constraints p));
  (* Objective Handling *)
  let ff := o_value <$> objectives p in
  (* Setup argument list values *)
  let iprint := if (myrank =? 0)%nat then iprint s else 0%Z in
  when (0 <=? iprint)%Z
    (present ← os_path_isfile (ifile s);
     when present (os_remove (ifile s)));;
  (* Run ALGENCAN *)
  let c := mkClosure pll myrank group_ids in
  emit EvAlgencan;;
  r ← algencan s (mkBackendArgs n xx xl xu m equatn linear)
                 (evalfc s p c) (evalgjac s p c);
  close_history myrank tmp_file;;
  when (0 <? iprint)%Z (emit EvCloseUnit);;
  '(fs, gg, fail) ← call_obj_fun p (XFlat (r_xx r));
  (* Store Results *)
  store_results s p r gg.

End Model.

(** * Sample problems *)

(** Inputs on which the model is run below.  Their floats are integers. *)
Module Samples.

#[export] Instance Z_float : PyFloat Z := {| float_to_int := id |}.

(** [objfunc] of [examples/rosenbrock.py]: no constraints. *)
Definition rosenbrock_objfunc (xn : @xview Z)
  : outcome (@num Z * list (@num Z) * Z) :=
  match xn with
  | XFlat x =>
      x0 ← getitem x 0; x1 ← getitem x 1;
      mret (Real (100 * (x1 - x0 ^ 2) ^ 2 + (1 - x0) ^ 2)%Z, [], 0%Z)
  | XGroups _ => Raise (KeyError "0")
  end.

Definition x1 : @variable Z := mkVariable "x1" "c" (-10)%Z 10%Z (-3)%Z.
Definition x2 : @variable Z := mkVariable "x2" "c" (-10)%Z 10%Z (-4)%Z.

(** The problem of [examples/rosenbrock.py]. *)
Definition rosenbrock : @problem Z :=
  mkProblem "Rosenbrock Unconstraint Problem" [x1; x2]
    [mkObjective "f" (Real 0%Z)] [] false [] rosenbrock_objfunc.

(** The same objective with one inequality constraint, [x0 + x1 <= 1]. *)
Definition constrained_objfunc (xn : @xview Z)
  : outcome (@num Z * list (@num Z) * Z) :=
  match xn with
  | XFlat x =>
      x0 ← getitem x 0; x1 ← getitem x 1;
      mret (Real (100 * (x1 - x0 ^ 2) ^ 2 + (1 - x0) ^ 2)%Z,
            [Real (x0 + x1 - 1)%Z], 0%Z)
  | XGroups _ => Raise (KeyError "0")
  end.

Definition constrained : @problem Z :=
  mkProblem "Constrained Rosenbrock" [x1; x2]
    [mkObjective "f" (Real 0%Z)] [mkConstraint "g1" "i"] false []
    constrained_objfunc.

(** The same problem with [x2] declared as an integer variable. *)
Definition with_integer : @problem Z :=
  mkProblem "Integer Rosenbrock"
    [x1; mkVariable "x2" "i" (-10)%Z 10%Z (-4)%Z]
    [mkObjective "f" (Real 0%Z)] [mkConstraint "g1" "i"] false []
    constrained_objfunc.



(** A gradient routine that returns the exact derivatives. *)
Definition exact_grad (x : list Z) (group_ids : gmap string (nat * nat))
    (ff gg : list (@num Z)) : outcome (@matrix Z * @matrix Z) :=
  x0 ← getitem x 0; x1 ← getitem x 1;
  mret ([[Real (2 * x0 - 2 - 400 * x0 * (x1 - x0 ^ 2))%Z;
          Real (200 * (x1 - x0 ^ 2))%Z]],
        [[Real 1%Z; Real 1%Z]]).

(** A solver that asks for the values and then the gradients at the
    starting point, once, and stops there. *)
Definition one_step (a : @backend_args Z) (fc : @fc_callback Z)
    (gjac : @gjac_callback Z) : @M Z (@backend_result Z) :=
  let zeros := replicate (a_m a) (Real 0%Z) in
  '(f, g, flag) ← fc (a_n a) (a_xx a) (Real 0%Z) (a_m a) zeros 0%Z;
  '(jfval, jcfun, jcvar, jcval, jcnnz, flag) ←
    gjac (a_n a) (a_xx a) (replicate (a_n a) (Real 0%Z)) (a_m a)
         (replicate (a_m a * a_n a) 0%Z) (replicate (a_m a * a_n a) 0%Z)
         (replicate (a_m a * a_n a) (Real 0%Z)) 0%nat 0%Z;
  mret (mkBackendResult (a_xx a) [f] (replicate (a_m a) 0%Z) 0).

(** A serial solve that neither records nor replays. *)
Definition serial : @solver Z :=
  mkSolver false "" true 10 "ALGENCAN.out" None
    (mkHistoryRequest false None) exact_grad one_step.

Definition serial_closure : closure := mkClosure false 0 ∅.
Definition root_closure : closure := mkClosure true 0 ∅.
Definition worker_closure : closure := mkClosure true 1 ∅.

(** A log of one evaluation: objective 5, constraint 6, no failure. *)
Definition one_record : @History Z :=
  mkHistory "hist"
    (<["obj" := [[5%Z]]]> (<["con" := [[6%Z]]]> (<["fail" := [[0%Z]]]> ∅)))
    false.

Definition empty_log : @History Z := mkHistory "hist" ∅ false.

(** Nothing on disk, nothing done yet: live, not recording. *)
Definition fresh : @state Z := mkState false false empty_log [] ∅ [].
(** Live and recording. *)
Definition recording : @state Z := mkState false true empty_log [] ∅ [].
(** Replaying [one_record], not recording. *)
Definition replaying : @state Z := mkState true false one_record [] ∅ [].
(** A worker that is about to be told that the solve is live. *)
Definition worker_live : @state Z :=
  mkState false true empty_log [MFlag false] ∅ [].

(** A problem with a group of two variables and a group of one; its model
    adds up what it is given. *)
Definition grouped_objfunc (xn : @xview Z)
  : outcome (@num Z * list (@num Z) * Z) :=
  match xn with
  | XGroups xg =>
      match xg !! "xvec", xg !! "y" with
      | Some (Slice [a; b]), Some (Scalar y) =>
          Ok (Real (a + b + y)%Z, [Real (a - y)%Z], 0%Z)
      | _, _ => Raise (KeyError "xvec")
      end
  | XFlat _ => Raise (TypeError "list indices must be integers")
  end.

Definition grouped : @problem Z :=
  mkProblem "Grouped"
    [mkVariable "xvec_0" "c" 0%Z 9%Z 1%Z; mkVariable "xvec_1" "c" 0%Z 9%Z 2%Z;
     mkVariable "y" "c" 0%Z 9%Z 3%Z]
    [mkObjective "f" (Real 0%Z)] [mkConstraint "g1" "i"] true
    [mkVargroup "xvec" [("xvec_0", 0%nat); ("xvec_1", 1%nat)];
     mkVargroup "y" [("y", 2%nat)]]
    grouped_objfunc.

(** The closure that [__solve__] builds for [grouped] in a serial solve. *)
Definition grouped_closure : closure :=
  mkClosure false 0 (make_group_ids (vargroups grouped) 0 ∅).

(** A replayed log and its temporary twin on disk, at the end of a solve
    that recorded while it replayed. *)
Definition four_files : gmap string string :=
  <["hist.cue" := "old index"]> (<["hist.bin" := "old data"]>
  (<["hist_tmp.cue" := "new index"]> (<["hist_tmp.bin" := "new data"]> ∅))).

Definition to_promote : @state Z :=
  mkState false true empty_log [] four_files [].

(** A user model that answers with a [numpy.complex128] objective and a
    [numpy.complex64] constraint value. *)
Definition mixed_objfunc (xn : @xview Z)
  : outcome (@num Z * list (@num Z) * Z) :=
  Ok (NpComplex 7%Z 1%Z, [NpComplex64 3%Z 2%Z], 0%Z).

Definition mixed_valued : @problem Z :=
  mkProblem "Mixed complex" [x1; x2]
    [mkObjective "f" (Real 0%Z)] [mkConstraint "g1" "i"] false []
    mixed_objfunc.

(** A serial solve that is to replay a log which is not there. *)
Definition missing_log : @solver Z :=
  mkSolver false "" true 10 "ALGENCAN.out" None
    (mkHistoryRequest false (Some (Unreadable "hist.cue")))
    exact_grad one_step.

End Samples.

(** * Properties named by the specification *)

(** The text that an exception carries. *)
Definition exn_message (e : exn) : string :=
  match e with
  | ValueError msg | IOError msg | NotImplementedError msg
  | ConfigurationError msg | TypeError msg => msg
  | UnboundLocalError var => var
  | AttributeError attr => attr
  | KeyError key => key
  | IndexError => ""
  | OSError path => path
  end.

Definition is_ConfigurationError (e : exn) : Prop :=
  ∃ msg, e = ConfigurationError msg.

Section SetupProperties.
Context {F : Type}.

(** A variable that a continuous-only solver cannot take. *)
Definition noncontinuous (v : @variable F) : Prop :=
  v_type v = "i" ∨ v_type v = "d".

(** The call was refused with a [ConfigurationError] whose message names a
    variable of the problem that is not continuous. *)
Definition rejected_naming_variable {A : Type} (o : outcome A)
    (p : @problem F) : Prop :=
  ∃ e v, o = Raise e ∧ is_ConfigurationError e ∧
         v ∈ variables p ∧ noncontinuous v ∧
         contains (v_name v) (exn_message e) = true.

(** The call was refused with a [ConfigurationError]. *)
Definition rejected_as_configuration {A : Type} (o : outcome A) : Prop :=
  ∃ e, o = Raise e ∧ is_ConfigurationError e.

(** The checks of [__solve__] on its parallel mode let the solve through:
    not both [POA] and ['pgc'], and MPI at hand if either is asked for. *)
Definition parallel_setup_ok (s : @solver F) : Prop :=
  poa s && bool_decide (lower (sens_mode s) = "pgc") = false ∧
  (poa s || bool_decide (lower (sens_mode s) = "pgc") = true →
   is_Some (mpi4py s)).

(** No hot start is asked for, or the log to replay can be opened. *)
Definition history_opens (s : @solver F) : Prop :=
  ∀ why, hot_start (history s) ≠ Some (Unreadable why).

End SetupProperties.

(** * The promotion of the temporary log *)

Section Promotion.
Context {F : Type}.

(** The index and the data of the log [name], and of the temporary log next
    to it, as they are on disk. *)
Definition canonical_log (name : string) (d : gmap string string)
  : option (string * string) :=
  match d !! (name +:+ ".cue"), d !! (name +:+ ".bin") with
  | Some cue, Some bin => Some (cue, bin)
  | _, _ => None
  end.

Definition temporary_log (name : string) (d : gmap string string)
  : option (string * string) :=
  match d !! (name +:+ "_tmp.cue"), d !! (name +:+ "_tmp.bin") with
  | Some cue, Some bin => Some (cue, bin)
  | _, _ => None
  end.

(** The promotion, stopped after its first [k] file operations. *)
Definition interrupted (name : string) (k : nat) : @M F unit :=
  run (take k (promotion name)).

(** All or nothing: wherever the promotion is stopped, the log [name] is on
    disk, whole, and is either the one that was there or the temporary
    one. *)
Definition all_or_nothing (name : string) (st : @state F) : Prop :=
  ∀ k, let d := fs (interrupted name k st).2 in
       is_Some (canonical_log name d) ∧
       (canonical_log name d = canonical_log name (fs st) ∨
        canonical_log name d = temporary_log name (fs st)).

End Promotion.

(** * Properties of traces *)

Section TraceProperties.
Context {F : Type}.

(** The values handed to [log_file.write], in order. *)
Definition log_writes (tr : list (@event F)) : list (@pyobj F * string) :=
  omap (λ e, match e with EvWrite v ident => Some (v, ident) | _ => None end) tr.

Definition is_write (e : @event F) : bool :=
  match e with EvWrite _ _ => true | _ => false end.

(** The events that evaluate the user model or enter the solver. *)
Definition is_evaluation (e : @event F) : bool :=
  match e with
  | EvObjFun _ | EvGetGrad _ | EvAlgencan => true
  | _ => false
  end.

Definition evaluations (tr : list (@event F)) : list (@event F) :=
  List.filter is_evaluation tr.




End TraceProperties.

(** * What the set-up hands to the solver *)

Section SetupShapes.
Context {F : Type}.

(** The variables that the variables handling keeps, and the constraints
    that the constraints handling gives an entry of [equatn] to. *)
Definition continuous (v : @variable F) : Prop := v_type v = "c".

Definition kind_known (k : constraint) : Prop :=
  c_type k = "e" ∨ c_type k = "i".

Definition is_equality (k : constraint) : bool := bool_decide (c_type k = "e").

#[export] Instance continuous_dec (v : @variable F) : Decision (continuous v).
Proof. unfold continuous. apply _. Defined.

#[export] Instance kind_known_dec (k : constraint) : Decision (kind_known k).
Proof. unfold kind_known. apply _. Defined.

(** The sum of the sizes of a list of groups. *)
Definition groups_size (groups : list vargroup) : nat :=
  sum_list ((λ g, length (g_ids g)) <$> groups).

End SetupShapes.

(** * The state in which the solver is entered *)

Section SolverEntry.
Context {F : Type}.

(** What a serial [__solve__] has done to the state when it reaches the call
    of [algencan.algencan] (line 610): the history attributes are set, the
    output file of an earlier run is removed if output is on, and the
    solver is about to run. *)
Definition solver_entry (s : @solver F) (st : @state F) : @state F :=
  let st_h := (_setHistory (history s) st).2 in
  let st_f :=
    if (0 <=? iprint s)%Z then
      match fs st_h !! ifile s with
      | Some _ => set_fs (delete (ifile s) (fs st_h)) st_h
      | None => st_h
      end
    else st_h in
  add_event EvAlgencan st_f.

(** What a serial [__solve__] does after the solver has returned [r], when
    there is no temporary log, up to and with the last evaluation of the
    user model. *)
Definition closing_events (s : @solver F) (recording : bool)
    (r : @backend_result F) : list (@event F) :=
  (if recording then [EvLogClose] else []) ++
  (if (0 <? iprint s)%Z then [EvCloseUnit] else []) ++
  [EvObjFun (XFlat (r_xx r))].

(** The solution that is stored for a problem [p], from the buffers [r] as
    the solver left them and the constraint values [gg] of the last
    evaluation: one value for each variable, objective and constraint. *)
Definition stored_solution (p : @problem F) (r : @backend_result F)
    (gg : list (@num F)) (text : string) : @event F :=
  EvAddSol (r_inform r, text)
    (take (length (variables p)) (r_xx r))
    (take (length (objectives p)) (r_ff r))
    (take (length (constraints p)) gg)
    (r_lm r).

End SolverEntry.

(** * What the coercion does to a value *)

Section CoercedValues.
Context {F : Type}.

(** A built-in [complex], which has no [astype]. *)
Definition builtin_complex (v : @num F) : Prop :=
  match v with
  | PyComplex _ _ => True
  | Real _ | NpComplex _ _ | NpComplex64 _ _ => False
  end.


End CoercedValues.

(** * Events of the replay *)

Section ReplayEvents.
Context {F : Type}.

(** The events that touch the log that is replayed. *)
Definition is_replay_event (e : @event F) : bool :=
  match e with
  | EvRead _ | EvHosClose => true
  | _ => false
  end.

Definition replay_events (tr : list (@event F)) : list (@event F) :=
  List.filter is_replay_event tr.

End ReplayEvents.

(** * More sample inputs *)

Module MoreSamples.
Import Samples.

(** A solve that asks for both levels of parallelism. *)
Definition both_levels : @solver Z :=
  mkSolver true "PGC" true 10 "ALGENCAN.out" (Some 0%nat)
    (mkHistoryRequest false None) exact_grad one_step.

(** A solve that asks for [POA] where MPI cannot be imported. *)
Definition poa_without_mpi : @solver Z :=
  mkSolver true "" true 10 "ALGENCAN.out" None
    (mkHistoryRequest false None) exact_grad one_step.

(** The model of [examples/rosenbrock.py], which returns no constraint
    value, in a problem that declares one constraint. *)
Definition underreporting : @problem Z :=
  mkProblem "Rosenbrock with a constraint" [x1; x2]
    [mkObjective "f" (Real 0%Z)] [mkConstraint "g1" "i"] false []
    rosenbrock_objfunc.

(** A user model that answers with a built-in [complex]. *)
Definition builtin_objfunc (xn : @xview Z)
  : outcome (@num Z * list (@num Z) * Z) :=
  Ok (PyComplex 7%Z 1%Z, [Real 3%Z], 0%Z).

Definition builtin_valued : @problem Z :=
  mkProblem "Built-in complex" [x1; x2]
    [mkObjective "f" (Real 0%Z)] [mkConstraint "g1" "i"] false []
    builtin_objfunc.

(** The solver [one_step], reporting a code that is not in the table of
    [__init__]. *)
Definition odd_step (a : @backend_args Z) (fc : @fc_callback Z)
    (gjac : @gjac_callback Z) : @M Z (@backend_result Z) :=
  r ← one_step a fc gjac;
  mret (mkBackendResult (r_xx r) (r_ff r) (r_lm r) 7%Z).

Definition odd_inform : @solver Z :=
  mkSolver false "" true 10 "ALGENCAN.out" None
    (mkHistoryRequest false None) exact_grad odd_step.

(** A solver that stops at once, at the starting point. *)
Definition no_step (a : @backend_args Z) (fc : @fc_callback Z)
    (gjac : @gjac_callback Z) : @M Z (@backend_result Z) :=
  mret (mkBackendResult (a_xx a) [Real 0%Z] (replicate (a_m a) 0%Z) 0).

Definition idle : @solver Z :=
  mkSolver false "" true 10 "ALGENCAN.out" None
    (mkHistoryRequest false None) exact_grad no_step.

(** The constrained problem with a third variable, of a kind that is none
    of ['c'], ['i'] and ['d']. *)
Definition with_unknown_kind : @problem Z :=
  mkProblem "Unknown kind"
    [x1; x2; mkVariable "x3" "x" (-10)%Z 10%Z 0%Z]
    [mkObjective "f" (Real 0%Z)] [mkConstraint "g1" "i"] false []
    constrained_objfunc.

(** A replay whose log has no record left. *)
Definition replay_at_end : @state Z :=
  mkState true false empty_log [] ∅ [].

(** A recording root at the end of a solve, with the replayed log on disk
    and no temporary log beside it. *)
Definition log_only : gmap string string :=
  <["hist.cue" := "old index"]> (<["hist.bin" := "old data"]>
  (<["notes.txt" := "kept"]> ∅)).

Definition without_temporary : @state Z :=
  mkState false true empty_log [] log_only [].

(** The four files of [four_files] and one more. *)
Definition with_bystander : @state Z :=
  mkState false true empty_log [] (<["notes.txt" := "kept"]> four_files) [].

End MoreSamples.

(** * Theorems *)

Section InitFacts.
Import Init.

Lemma ascii_nat_eq (a b : ascii) : nat_of_ascii a = nat_of_ascii b → a = b.
Proof.
  intros H. rewrite <- (ascii_nat_embedding a), <- (ascii_nat_embedding b).
  by rewrite H.
Qed.

Lemma upper_char_inv (c : ascii) (n : nat) :
  (65 <= n <= 90)%nat →
  upper_char c = ascii_of_nat n →
  c = ascii_of_nat n ∨ c = ascii_of_nat (n + 32).
Proof.
  intros Hn. unfold upper_char.
  pose proof (nat_ascii_bounded c) as Hb.
  destruct (_ && _) eqn:E.
  - apply andb_prop in E as [E1 E2].
    apply Nat.leb_le in E1, E2.
    intros H. right. apply ascii_nat_eq.
    apply (f_equal nat_of_ascii) in H.
    rewrite !nat_ascii_embedding in H by lia.
    rewrite nat_ascii_embedding by lia. lia.
  - intros ->. by left.
Qed.

Lemma upper_POA_spellings (s : string) :
  upper s = "POA" ↔ In s poa_spellings.
Proof.
  split.
  - destruct s as [|a [|b [|c [|d s]]]]; simpl; try discriminate.
    intros H. injection H as Ha Hb Hc.
    apply (upper_char_inv a 80) in Ha; [|lia].
    apply (upper_char_inv b 79) in Hb; [|lia].
    apply (upper_char_inv c 65) in Hc; [|lia].
    simpl in Ha, Hb, Hc.
    destruct Ha as [-> | ->], Hb as [-> | ->], Hc as [-> | ->]; tauto.
  - simpl. intros H.
    repeat (destruct H as [<- | H]; [reflexivity|]). destruct H.
Qed.

(** C10. Construction succeeds exactly when [pll_type] is [None] (the flag
    [poa] is then false) or one of the spellings of POA in any mix of
    cases (the flag is then true); whenever it does not succeed it raises
    the [ValueError] of the source, and nothing of the optimizer is built. *)
Theorem init_pll_type (pll_type : option string) :
  (__init__ pll_type = Ok false ↔ pll_type = None) ∧
  (__init__ pll_type = Ok true ↔
     ∃ s, pll_type = Some s ∧ In s poa_spellings) ∧
  ((∀ poa, __init__ pll_type ≠ Ok poa) ↔
     __init__ pll_type =
       Raise (ValueError "pll_type must be either None or 'POA'")).
Proof.
  unfold __init__. destruct pll_type as [s|].
  - case_bool_decide as E.
    + split_and!; split; try done.
      * intros _. exists s. split; [done|]. by apply upper_POA_spellings.
      * intros Hno. by destruct (Hno true).
    + split_and!; split; try done.
      intros (s' & [= <-] & Hs). by apply upper_POA_spellings in Hs.
  - split_and!; split; try done.
    + intros (s & Hs & _). done.
    + intros Hno. by destruct (Hno false).
Qed.

End InitFacts.

(** ** The monad *)

Section MonadFacts.
Context {F : Type} `{PyFloat F}.
Implicit Types (st : @state F) (I : @state F → Prop).

Lemma bind_Ok_inv {A B : Type} (m : M A) (k : A → M B) st b st' :
  (m ≫= k) st = (Ok b, st') →
  ∃ a st1, m st = (Ok a, st1) ∧ k a st1 = (Ok b, st').
Proof.
  unfold mbind, M_bind. destruct (m st) as [[a| e |] st1]; try done.
  intros Hk. by exists a, st1.
Qed.

Lemma lift_Ok_inv {A : Type} (o : outcome A) st a st' :
  lift o st = (Ok a, st') → o = Ok a ∧ st' = st.
Proof. unfold lift. by intros [= -> ->]. Qed.

Lemma bind_run_Ok {A B : Type} (m : M A) (k : A → M B) st a st1 :
  m st = (Ok a, st1) → (m ≫= k) st = k a st1.
Proof. unfold mbind, M_bind. by intros ->. Qed.

Lemma bind_run_Raise {A B : Type} (m : M A) (k : A → M B) st e st1 :
  m st = (Raise e, st1) → (m ≫= k) st = (Raise e, st1).
Proof. unfold mbind, M_bind. by intros ->. Qed.

(** An action preserves [I] when [I] holds afterwards, however the action
    ends. *)
Definition preserves {A : Type} I (m : M A) : Prop :=
  ∀ st, I st → I (m st).2.

Lemma preserves_ret {A : Type} I (a : A) : preserves I (mret a).
Proof. by intros st. Qed.

Lemma preserves_lift {A : Type} I (o : outcome A) : preserves I (lift o).
Proof. by intros st. Qed.

Lemma preserves_raise {A : Type} I e : preserves I (raise e : M A).
Proof. by intros st. Qed.

Lemma preserves_blocked {A : Type} I : preserves I (blocked : M A).
Proof. by intros st. Qed.

Lemma preserves_gets {A : Type} I (f : state → A) : preserves I (gets f).
Proof. by intros st. Qed.

Lemma preserves_bind {A B : Type} I (m : M A) (k : A → M B) :
  preserves I m → (∀ a, preserves I (k a)) → preserves I (m ≫= k).
Proof.
  intros Hm Hk st HI. specialize (Hm st HI).
  unfold mbind, M_bind. destruct (m st) as [[a| e |] st1]; simpl in *; try done.
  by apply Hk.
Qed.

(** After [gets f] the value read is one that a state satisfying [I]
    holds. *)
Lemma preserves_gets_bind {A B : Type} I (f : state → A) (k : A → M B) :
  (∀ st0, I st0 → preserves I (k (f st0))) →
  preserves I (gets f ≫= k).
Proof. intros Hk st HI. unfold mbind, M_bind, gets. by apply Hk. Qed.

Lemma preserves_modify I (f : state → state) :
  (∀ st, I st → I (f st)) → preserves I (modify f).
Proof. intros Hf st HI. by apply Hf. Qed.

Lemma preserves_when I (b : bool) (m : M unit) :
  (b = true → preserves I m) → preserves I (when b m).
Proof. destruct b; simpl; [auto | intros _; apply preserves_ret]. Qed.

(** [I] is stable when no assignment to [self.h_start], no step of the
    replay cursor, no broadcast received and no event that is [allowed]
    can break it. *)
Record stable (allowed : @event F → Prop) I : Prop := {
  stable_h_start : ∀ b st, I st → I (set_h_start b st);
  stable_hos_file : ∀ h st, I st → I (set_hos_file h st);
  stable_inbox : ∀ q st, I st → I (set_inbox q st);
  stable_event : ∀ e st, allowed e → I st → I (add_event e st);
}.

Section Stable.
Context (allowed : @event F → Prop) I (HI : stable allowed I).

Lemma preserves_emit e : allowed e → preserves I (emit e).
Proof. intros He. apply preserves_modify. intros st. by apply HI. Qed.

Lemma preserves_set_h_start b : preserves I (modify (set_h_start b)).
Proof. apply preserves_modify. intros st. by apply HI. Qed.

Lemma preserves_hos_read ident :
  allowed (EvRead ident) → preserves I (hos_read ident).
Proof.
  intros He. unfold hos_read.
  apply preserves_bind; [by apply preserves_emit|intros _].
  apply preserves_bind; [apply preserves_gets|intros h].
  destruct (History_read ident h) as [r h'].
  apply preserves_bind; [|intros _; apply preserves_ret].
  apply preserves_modify. intros st. by apply HI.
Qed.

Lemma preserves_Bcast rank m :
  (∀ m', allowed (EvBcast m')) → (∀ m', allowed (EvRecv m')) →
  preserves I (Bcast rank m).
Proof.
  intros Hs Hr. unfold Bcast. destruct (rank =? 0)%nat.
  - apply preserves_bind; [by apply preserves_emit|intros _].
    apply preserves_ret.
  - apply preserves_bind; [apply preserves_gets|intros [|received q]].
    + apply preserves_blocked.
    + apply preserves_bind;
        [apply preserves_modify; intros st; by apply HI|intros _].
      apply preserves_bind; [by apply preserves_emit|intros _].
      apply preserves_ret.
Qed.

Lemma preserves_call_obj_fun p xn :
  allowed (EvObjFun xn) → preserves I (call_obj_fun p xn).
Proof.
  intros He. unfold call_obj_fun.
  apply preserves_bind; [by apply preserves_emit|intros _].
  apply preserves_lift.
Qed.

Lemma preserves_flushFiles s :
  allowed EvFlush → preserves I (flushFiles s).
Proof.
  intros He. unfold flushFiles. apply preserves_when. intros _.
  by apply preserves_emit.
Qed.

End Stable.

End MonadFacts.

(** ** Running and inverting monadic code *)

(** Unfolds the calls to the outside and the monad, so that a callback
    applied to a state computes. *)
Ltac run_callback :=
  unfold flushFiles, hos_read, hos_close, log_write, when, emit,
    call_obj_fun, Bcast;
  unfold mbind, M_bind, mret, M_ret, lift, gets, modify, raise, blocked.

(** Splits a run that returned into the runs of its steps. *)
Ltac invert_run Hrun :=
  repeat first
    [ apply bind_Ok_inv in Hrun as (? & ? & ? & Hrun); cbv beta in Hrun
    | match type of Hrun with
      | (let '(_, _) := ?a in _) _ = _ => destruct a
      end ].

(** ** What the callbacks leave alone *)

Section CallbackInvariants.
Context {F : Type} `{PyFloat F}.
Implicit Types (st : @state F) (I : @state F → Prop).

Ltac preserves_step :=
  match goal with
  | |- preserves _ (mret _) => apply preserves_ret
  | |- preserves _ (lift _) => apply preserves_lift
  | |- preserves _ (raise _) => apply preserves_raise
  | |- preserves _ (gets _) => apply preserves_gets
  | |- preserves _ (when _ _) => apply preserves_when; intros ?
  | |- preserves _ (flushFiles _) => eapply preserves_flushFiles; [eassumption|]
  | |- preserves _ (hos_read _) => eapply preserves_hos_read; [eassumption|]
  | |- preserves _ (hos_close) => eapply preserves_emit; [eassumption|]
  | |- preserves _ (emit _) => eapply preserves_emit; [eassumption|]
  | |- preserves _ (log_write _ _) => eapply preserves_emit; [eassumption|]
  | |- preserves _ (call_obj_fun _ _) =>
      eapply preserves_call_obj_fun; [eassumption|]
  | |- preserves _ (Bcast _ _) => eapply preserves_Bcast; [eassumption|..]
  | |- preserves _ (modify (set_h_start _)) =>
      eapply preserves_set_h_start; eassumption
  | |- preserves _ (mbind _ (gets _)) =>
      apply preserves_gets_bind; intros ? ?
  | |- preserves _ (mbind _ _) => apply preserves_bind; [|intros ?]
  | |- preserves _ (if ?b then _ else _) => destruct b eqn:?
  | |- preserves _ (let '(_, _) := ?a in _) => destruct a
  | |- preserves _ (match ?a with _ => _ end) => destruct a eqn:?
  | |- ∀ _, _ => intros ?
  end.

(** Either this is not the root, or [self.sto_hst] is off, or writes are
    allowed. *)
Definition may_not_write (allowed : @event F → Prop) I (c : closure) : Prop :=
  myrank c ≠ 0%nat ∨ (∀ st, I st → sto_hst st = false) ∨ (∀ e, allowed e).

Lemma evalfc_preserves allowed I s p c n x f m g flag :
  stable allowed I →
  (∀ e, is_write e = false → allowed e) →
  may_not_write allowed I c →
  preserves I (evalfc s p c n x f m g flag).
Proof.
  intros HI Hq Hw. unfold evalfc.
  repeat preserves_step; try (by apply Hq);
    match goal with
       | Hb : _ && sto_hst ?st' = true, HI' : I ?st' |- _ =>
           apply andb_prop in Hb as [Hr Hs];
           destruct Hw as [Hw | [Hw | Hw]];
           [ apply Nat.eqb_eq in Hr; done
           | rewrite (Hw _ HI') in Hs; done
           | apply Hw ]
       end.
Qed.

Lemma evalgjac_preserves allowed I s p c n x jfval m jcfun jcvar jcval
    jcnnz flag :
  stable allowed I →
  (∀ e, is_write e = false → allowed e) →
  may_not_write allowed I c →
  preserves I (evalgjac s p c n x jfval m jcfun jcvar jcval jcnnz flag).
Proof.
  intros HI Hq Hw. unfold evalgjac.
  repeat preserves_step; try (by apply Hq);
    match goal with
       | Hb : sto_hst ?st' && _ = true, HI' : I ?st' |- _ =>
           apply andb_prop in Hb as [Hs Hr];
           destruct Hw as [Hw | [Hw | Hw]];
           [ apply Nat.eqb_eq in Hr; done
           | rewrite (Hw _ HI') in Hs; done
           | apply Hw ]
       end.
Qed.

Lemma log_writes_add_event (e : @event F) st :
  is_write e = false →
  log_writes (trace (add_event e st)) = log_writes (trace st).
Proof.
  intros He. unfold log_writes. simpl. rewrite omap_app. simpl.
  destruct e; try done; by rewrite app_nil_r.
Qed.

(** The recording flag and the values written so far. *)
Definition log_is (sto : bool) (w : list (@pyobj F * string)) st : Prop :=
  sto_hst st = sto ∧ log_writes (trace st) = w.

Lemma log_is_stable sto w :
  stable (λ e, is_write e = false) (log_is sto w).
Proof.
  split; try done.
  intros e st He [Hs Hw]. split; [done|].
  by rewrite log_writes_add_event.
Qed.

(** C9. In both callbacks, a process whose rank is not 0, or one that has
    recording switched off, writes nothing to the history log: the values
    handed to [log_file.write] are the same after the call as before,
    whether the call returns, raises or blocks. *)
Theorem history_written_by_recording_root s p c st
    n x f m g flag jfval jcfun jcvar jcval jcnnz :
  myrank c ≠ 0%nat ∨ sto_hst st = false →
  log_writes (trace (evalfc s p c n x f m g flag st).2)
    = log_writes (trace st) ∧
  log_writes
    (trace (evalgjac s p c n x jfval m jcfun jcvar jcval jcnnz flag st).2)
    = log_writes (trace st).
Proof.
  intros Hc.
  assert (may_not_write (λ e, is_write e = false)
            (log_is (sto_hst st) (log_writes (trace st))) c) as Hw.
  { destruct Hc as [Hr | Hs]; [by left|].
    right; left. intros st' [Hs' _]. congruence. }
  split.
  - eapply (evalfc_preserves _ _ s p c n x f m g flag
              (log_is_stable _ _)); [done|exact Hw|done].
  - eapply (evalgjac_preserves _ _ s p c n x jfval m jcfun jcvar jcval
              jcnnz flag (log_is_stable _ _)); [done|exact Hw|done].
Qed.

End CallbackInvariants.

(** ** The assignment loops *)

Section LoopFacts.
Context {F : Type}.
Implicit Types (v : @num F) (g gg : list (@num F)).


Lemma coerce_not_builtin v : ¬ builtin_complex v → ∃ v', coerce v = Ok v'.
Proof.
  destruct v as [r|re im|re im|re im]; simpl; intros Hb;
    [by eexists|by destruct Hb|by eexists..].
Qed.

Lemma coerce_builtin v :
  builtin_complex v → coerce v = Raise (AttributeError "astype").
Proof. by destruct v. Qed.

Lemma setitem_Ok {A : Type} (l : list A) i a :
  (i < length l)%nat → setitem l i a = Ok (<[i := a]> l).
Proof. intros Hi. unfold setitem. by rewrite bool_decide_eq_true_2. Qed.

Lemma setitem_Ok_inv {A : Type} (l l' : list A) i a :
  setitem l i a = Ok l' → (i < length l)%nat ∧ l' = <[i := a]> l.
Proof. unfold setitem. case_bool_decide; [by intros [= <-]|done]. Qed.



(** The loop goes through when the buffer and the constraint vector are
    long enough and no value is a built-in [complex]. *)
Lemma assign_constraints_total range gg g :
  (∀ i, i ∈ range →
        (i < length g)%nat ∧ ∃ v v', gg !! i = Some v ∧ coerce v = Ok v') →
  ∃ g', assign_constraints range (Some gg) g = Ok g'.
Proof.
  revert g. induction range as [|j range IH]; intros g Hr; simpl.
  - by exists g.
  - destruct (Hr j) as (Hj & v & v' & Hv & Hco); [by left|].
    unfold getitem. rewrite Hv. simpl. rewrite Hco. simpl.
    rewrite setitem_Ok by done. simpl.
    apply IH. intros i Hi. rewrite length_insert.
    apply Hr. by right.
Qed.

End LoopFacts.

(** ** Replay *)

Section Replay.
Context {F : Type} `{PyFloat F}.
Implicit Types (st : @state F).

Lemma replayed_constraints_fit (gg : list F) (g : list (@num F)) k :
  (k ≤ length gg)%nat → (k ≤ length g)%nat →
  ∃ g', assign_constraints (seq 0 k) (Some (Real <$> gg)) g = Ok g'.
Proof.
  intros Hgg Hg. apply assign_constraints_total.
  intros i Hi. apply elem_of_seq in Hi. split; [lia|].
  destruct (lookup_lt_is_Some_2 gg i) as [r Hr]; [lia|].
  exists (Real r), (Real r). by rewrite list_lookup_fmap, Hr.
Qed.

Ltac trace_filter :=
  unfold evaluations; rewrite ?List.filter_app; simpl;
  by rewrite ?app_nil_r.

(** C1.  On the root of a serial solve that replays a log with an unread
    record, [evalfc] takes the objective and the constraints from the log
    without calling the user model, and then raises [UnboundLocalError]
    for [fail]: the failure flag of the record was stored in [flag]. *)
Theorem replay_raises_unbound_fail s p c n x f m g flag st
    xn vals h' obj0 objs gg fl0 fls :
  myrank c = 0%nat → pll c = false → h_start st = true →
  group_view p (group_ids c) x = Ok xn →
  History_read ["obj"; "con"; "fail"] (hos_file st) = ((vals, false), h') →
  vals_array vals "obj" = Ok (obj0 :: objs) →
  vals_array vals "con" = Ok gg →
  vals_array vals "fail" = Ok (fl0 :: fls) →
  (length (constraints p) ≤ length gg)%nat →
  (length (constraints p) ≤ length g)%nat →
  (evalfc s p c n x f m g flag st).1 = Raise (UnboundLocalError "fail") ∧
  evaluations (trace (evalfc s p c n x f m g flag st).2)
    = evaluations (trace st).
Proof.
  intros Hr Hp Hs Hv Hread Ho Hc Hf Hgg Hg.
  destruct (replayed_constraints_fit gg g _ Hgg Hg) as [g' Hg'].
  unfold evalfc. run_callback.
  rewrite Hv, Hr, Hp. simpl.
  destruct (0 <=? iprint s)%Z; simpl; rewrite Hs; simpl; rewrite Hread;
    simpl; rewrite Ho, Hc, Hf; simpl; rewrite Hs; simpl;
    destruct (sto_hst st); simpl; rewrite ?Hg'; simpl;
    (split; [done|trace_filter]).
Qed.

(** The gradient callback does the same: on the root of a serial solve
    that replays a log with an unread gradient record, [evalgjac] takes the
    gradients from the log, fills the buffers without calling the user model
    and then raises [UnboundLocalError] for [fail], which only the live
    branch assigns. *)
Lemma gradient_replay_raises_unbound_fail s p c n x jfval m jcfun jcvar jcval
    jcnnz flag st vals h' a b dff dgg jfval' buffers :
  myrank c = 0%nat → pll c = false → h_start st = true →
  History_read ["grad_obj"; "grad_con"] (hos_file st) = ((vals, false), h') →
  vals_array vals "grad_obj" = Ok a →
  reshape a (length (objectives p)) (length (variables p)) = Ok dff →
  vals_array vals "grad_con" = Ok b →
  reshape b (length (constraints p)) (length (variables p)) = Ok dgg →
  assign_objective_gradient (seq 0 (length (variables p))) (Some dff) jfval
    = Ok jfval' →
  jac_rows (seq 0 (length (constraints p))) (seq 0 (length (variables p)))
    (Some dgg) (jcfun, jcvar, jcval, 0%nat) = Ok buffers →
  (evalgjac s p c n x jfval m jcfun jcvar jcval jcnnz flag st).1
    = Raise (UnboundLocalError "fail") ∧
  evaluations
    (trace (evalgjac s p c n x jfval m jcfun jcvar jcval jcnnz flag st).2)
    = evaluations (trace st).
Proof.
  intros Hr Hp Hs Hread Ha Hdff Hb Hdgg Hf Hj.
  unfold evalgjac. run_callback.
  rewrite Hs, Hr, Hp. simpl. rewrite Hread. simpl.
  rewrite Ha. simpl. rewrite Hdff. simpl. rewrite Hb. simpl.
  rewrite Hdgg. repeat (simpl; rewrite ?Hs).
  destruct (sto_hst st); simpl; rewrite Hf; simpl; rewrite Hj; simpl;
    destruct buffers as [[[? ?] ?] ?]; simpl; (split; [done|trace_filter]).
Qed.

(** C7.  On the root of a parallel solve that replays a log with an unread
    record, [evalfc] broadcasts the decision and then raises
    [UnboundLocalError] for [fail] while it builds the list to broadcast:
    the values taken from the log are never sent, and the user model is
    not called. *)
Theorem parallel_replay_sends_no_values s p c n x f m g flag st
    xn vals h' obj0 objs gg fl0 fls :
  myrank c = 0%nat → pll c = true → h_start st = true →
  group_view p (group_ids c) x = Ok xn →
  History_read ["obj"; "con"; "fail"] (hos_file st) = ((vals, false), h') →
  vals_array vals "obj" = Ok (obj0 :: objs) →
  vals_array vals "con" = Ok gg →
  vals_array vals "fail" = Ok (fl0 :: fls) →
  (evalfc s p c n x f m g flag st).1 = Raise (UnboundLocalError "fail") ∧
  trace (evalfc s p c n x f m g flag st).2
    = trace st ++ (if (0 <=? iprint s)%Z then [EvFlush] else [])
               ++ [EvRead ["obj"; "con"; "fail"]; EvBcast (MFlag true)].
Proof.
  intros Hr Hp Hs Hv Hread Ho Hc Hf.
  unfold evalfc. run_callback.
  rewrite Hv, Hr, Hp. simpl.
  destruct (0 <=? iprint s)%Z; simpl; rewrite Hs; simpl; rewrite Hread;
    simpl; rewrite Ho, Hc, Hf; simpl; rewrite Hs; simpl;
    (split; [done|]); by rewrite <- ?app_assoc.
Qed.

(** The other ranks of such a solve are told that the replay is on and
    raise [UnboundLocalError] for [ff], which only the root assigns. *)
Lemma worker_replay_raises_unbound_ff s p c n x f m g flag st xn q :
  myrank c ≠ 0%nat → pll c = true →
  group_view p (group_ids c) x = Ok xn →
  inbox st = MFlag true :: q →
  (evalfc s p c n x f m g flag st).1 = Raise (UnboundLocalError "ff").
Proof.
  intros Hr Hp Hv Hq. apply Nat.eqb_neq in Hr.
  unfold evalfc. run_callback.
  rewrite Hv, Hr, Hp. simpl.
  destruct (0 <=? iprint s)%Z; simpl; by rewrite Hq.
Qed.

(** A worker that has not been sent the decision waits for it: it reads no
    log and calls no user model. *)
Lemma worker_waits_for_decision s p c n x f m g flag st xn :
  myrank c ≠ 0%nat → pll c = true →
  group_view p (group_ids c) x = Ok xn →
  inbox st = [] →
  (evalfc s p c n x f m g flag st).1 = Blocked ∧
  trace (evalfc s p c n x f m g flag st).2
    = trace st ++ (if (0 <=? iprint s)%Z then [EvFlush] else []).
Proof.
  intros Hr Hp Hv Hq. apply Nat.eqb_neq in Hr.
  unfold evalfc. run_callback.
  rewrite Hv, Hr, Hp. simpl.
  destruct (0 <=? iprint s)%Z; simpl; rewrite Hq; simpl;
    by rewrite ?app_nil_r.
Qed.

(** A worker that is told that the solve is live calls the user model, and
    does so after it has received the decision. *)
Lemma worker_calls_model_after_decision s p c n x f m g flag st xn q :
  myrank c ≠ 0%nat → pll c = true →
  group_view p (group_ids c) x = Ok xn →
  inbox st = MFlag false :: q →
  ∃ rest,
    trace (evalfc s p c n x f m g flag st).2
      = trace st ++ (if (0 <=? iprint s)%Z then [EvFlush] else [])
                 ++ [EvRecv (MFlag false); EvObjFun xn] ++ rest.
Proof.
  intros Hr Hp Hv Hq. apply Nat.eqb_neq in Hr.
  unfold evalfc. run_callback.
  rewrite Hv, Hr, Hp. simpl.
  destruct (0 <=? iprint s)%Z; simpl; rewrite Hq; simpl;
    destruct (obj_fun p xn) as [[[ff gg] fail]|e|]; simpl;
    try destruct (coerce ff); simpl;
    try destruct (assign_constraints _ _ _); simpl;
    eexists; rewrite <- ?app_assoc; simpl; reflexivity.
Qed.

End Replay.

Section ReplaySamples.
Import Samples.

Lemma replay_raises_unbound_fail_sample :
  (evalfc serial constrained serial_closure 2 [-3; -4]%Z (Real 0%Z) 1
          [Real 0%Z] 0%Z replaying).1
    = Raise (UnboundLocalError "fail") ∧
  evaluations
    (trace (evalfc serial constrained serial_closure 2 [-3; -4]%Z
              (Real 0%Z) 1 [Real 0%Z] 0%Z replaying).2)
    = evaluations (trace replaying).
Proof.
  eapply (replay_raises_unbound_fail serial constrained serial_closure);
    try reflexivity; simpl; lia.
Defined.

Lemma parallel_replay_sends_no_values_sample :
  (evalfc serial constrained root_closure 2 [-3; -4]%Z (Real 0%Z) 1
          [Real 0%Z] 0%Z replaying).1
    = Raise (UnboundLocalError "fail") ∧
  trace (evalfc serial constrained root_closure 2 [-3; -4]%Z
           (Real 0%Z) 1 [Real 0%Z] 0%Z replaying).2
    = [EvFlush; EvRead ["obj"; "con"; "fail"]; EvBcast (MFlag true)].
Proof.
  eapply (parallel_replay_sends_no_values serial constrained root_closure);
    reflexivity.
Defined.

Lemma history_written_by_recording_root_sample :
  log_writes
    (trace (evalfc serial constrained worker_closure 2 [-3; -4]%Z
              (Real 0%Z) 1 [Real 0%Z] 0%Z worker_live).2) = [] ∧
  log_writes
    (trace (evalgjac serial constrained worker_closure 2 [-3; -4]%Z
              [Real 0%Z; Real 0%Z] 1 [0; 0]%Z [0; 0]%Z
              [Real 0%Z; Real 0%Z] 0 0%Z worker_live).2) = [].
Proof.
  apply (history_written_by_recording_root serial constrained
           worker_closure worker_live).
  left. simpl. lia.
Defined.
End ReplaySamples.

(** ** What reaches the solver and what reaches the log *)

Section Coercion.
Context {F : Type} `{PyFloat F}.
Implicit Types (st : @state F).





End Coercion.

Section CoercionSamples.
Import Samples.

(** What the call of [evalfc] for [mixed_valued] returns on the root of a
    live, recording solve. *)
Example evalfc_mixed_valued :
  (evalfc serial mixed_valued serial_closure 2 [-3; -4]%Z (Real 0%Z) 1
     [Real 0%Z] 0%Z recording).1
  = Ok (Real 7%Z, [NpComplex64 3%Z 2%Z], 0%Z).
Proof. by vm_compute. Qed.



End CoercionSamples.

(** ** Set-up *)

Section Setup.
Context {F : Type} `{PyFloat F}.
Implicit Types (st : @state F) (p : @problem F) (s : @solver F).

Lemma variables_handling_not_blocked (vars : list (@variable F)) xl xu xx :
  variables_handling vars xl xu xx ≠ Blocked.
Proof.
  revert xl xu xx. induction vars as [|v vars IH]; intros xl xu xx; simpl.
  - done.
  - repeat case_bool_decide; try done; apply IH.
Qed.

Lemma variables_handling_raises_IOError (vars : list (@variable F)) xl xu xx e :
  variables_handling vars xl xu xx = Raise e → ∃ msg, e = IOError msg.
Proof.
  revert xl xu xx. induction vars as [|v vars IH]; intros xl xu xx; simpl.
  - done.
  - repeat case_bool_decide; try (by apply IH); intros [= <-]; by eexists.
Qed.

Lemma variables_handling_noncontinuous (vars : list (@variable F)) xl xu xx v :
  v ∈ vars → noncontinuous v →
  variables_handling vars xl xu xx
    = Raise (IOError "NLPQL cannot handle integer design variables") ∨
  variables_handling vars xl xu xx
    = Raise (IOError "NLPQL cannot handle discrete design variables").
Proof.
  intros Hv Hn. revert xl xu xx.
  induction vars as [|w vars IH]; intros xl xu xx; simpl.
  - by apply not_elem_of_nil in Hv.
  - apply elem_of_cons in Hv as [<-|Hv].
    + destruct Hn as [Hn|Hn]; rewrite Hn; simpl; auto.
    + repeat case_bool_decide; auto.
Qed.

Lemma variables_handling_continuous (vars : list (@variable F)) xl xu xx :
  (∀ v, v ∈ vars → ¬ noncontinuous v) →
  ∃ r, variables_handling vars xl xu xx = Ok r.
Proof.
  revert xl xu xx. induction vars as [|w vars IH]; intros xl xu xx Hc; simpl.
  - by eexists.
  - assert (∀ v, v ∈ vars → ¬ noncontinuous v) as Hc'.
    { intros v Hv. apply Hc. by right. }
    assert (¬ noncontinuous w) as Hw by (apply Hc; by left).
    repeat case_bool_decide; try (by apply IH).
    + destruct Hw. by left.
    + destruct Hw. by right.
Qed.

Ltac run_setup :=
  unfold __solve__, _setHistory, when, emit;
  unfold mbind, M_bind, mret, M_ret, lift, gets, modify, raise, blocked.

(** C3, as the code has it.  When the parallel set-up passes, a problem
    with a variable of kind ['i'] or ['d'] is refused with an [IOError],
    before anything outside the adapter has been called: no evaluation, no
    entry into the solver.  When no hot start is asked for, or the log to
    replay can be opened, the message is one of two fixed texts; when the
    log cannot be opened, the solve has ended before the variables are
    looked at, with the [IOError] of the history. *)
Theorem noncontinuous_variable_rejected s p st v :
  parallel_setup_ok s → v ∈ variables p → noncontinuous v →
  (∃ msg, (__solve__ s p st).1 = Raise (IOError msg)) ∧
  trace (__solve__ s p st).2 = trace st ∧
  (history_opens s →
   (__solve__ s p st).1
     = Raise (IOError "NLPQL cannot handle integer design variables") ∨
   (__solve__ s p st).1
     = Raise (IOError "NLPQL cannot handle discrete design variables")) ∧
  (∀ why, hot_start (history s) = Some (Unreadable why) →
          (__solve__ s p st).1 = Raise (IOError why)).
Proof.
  intros [Hboth Hmpi] Hv Hn.
  pose proof (variables_handling_noncontinuous (variables p) [] [] [] v Hv Hn)
    as Hvars.
  unfold history_opens. run_setup. rewrite Hboth.
  destruct (poa s || _) eqn:Hpar;
    [destruct Hmpi as [rank Hrank]; [done|]; rewrite Hrank|];
    destruct (hot_start (history s)) as [[log|why]|]; simpl;
    try (destruct Hvars as [E|E]; rewrite E; simpl);
    (split_and!;
     [by eexists|done|
      try (intros Hopen; by destruct (Hopen why)); auto|
      intros why' Hwhy; by simplify_eq]).
Qed.

(** C4, as the code has it.  A problem without constraints is always
    refused before any evaluation and before the solver is entered; when
    the parallel set-up passes the exception is an [IOError]; when moreover
    no hot start is asked for, or the log to replay can be opened, and
    every variable is acceptable, it is the one that says that
    unconstrained problems are not supported, raised with nothing done;
    when the log cannot be opened it is the [IOError] of the history. *)
Theorem unconstrained_problem_rejected s p st :
  constraints p = [] →
  (∃ e, (__solve__ s p st).1 = Raise e) ∧
  evaluations (trace (__solve__ s p st).2) = evaluations (trace st) ∧
  (parallel_setup_ok s → ∃ msg, (__solve__ s p st).1 = Raise (IOError msg)) ∧
  (parallel_setup_ok s → history_opens s →
   (∀ v, v ∈ variables p → ¬ noncontinuous v) →
   (__solve__ s p st).1 =
     Raise (IOError
       "ALGENCAN support for unconstrained problems not implemented yet") ∧
   trace (__solve__ s p st).2 = trace st) ∧
  (parallel_setup_ok s →
   ∀ why, hot_start (history s) = Some (Unreadable why) →
          (__solve__ s p st).1 = Raise (IOError why)).
Proof.
  intros Hm.
  assert (∀ o : outcome (list F * list F * list F),
            o = variables_handling (variables p) [] [] [] →
            match o with
            | Ok _ => True
            | Raise e => ∃ msg, e = IOError msg
            | Blocked => False
            end) as Hvars.
  { intros [r|e|] Ho; [done| |].
    - by eapply variables_handling_raises_IOError.
    - by eapply variables_handling_not_blocked. }
  specialize (Hvars _ eq_refl).
  split_and!.
  - run_setup. rewrite Hm.
    destruct (poa s), (bool_decide _), (mpi4py s),
      (hot_start (history s)) as [[log|why]|];
      simpl; eauto;
      destruct (variables_handling _ _ _ _) as [[[xl xu] xx]|e|];
      simpl; eauto; done.
  - run_setup. rewrite Hm.
    destruct (poa s), (bool_decide _), (mpi4py s),
      (hot_start (history s)) as [[log|why]|];
      simpl; eauto;
      try (destruct (variables_handling _ _ _ _) as [[[xl xu] xx]|e|];
      simpl; eauto);
      try (unfold evaluations; rewrite List.filter_app; simpl;
           by rewrite app_nil_r).
  - intros [Hboth Hmpi]. run_setup. rewrite Hm, Hboth.
    destruct (poa s || _) eqn:Hpar;
      [destruct Hmpi as [rank Hrank]; [done|]; rewrite Hrank|];
      destruct (hot_start (history s)) as [[log|why]|]; simpl; eauto;
      destruct (variables_handling _ _ _ _) as [[[xl xu] xx]|e|];
      simpl; eauto; try done;
      destruct Hvars as [msg ->]; eauto.
  - intros [Hboth Hmpi] Hopen Hcont.
    destruct (variables_handling_continuous (variables p) [] [] [] Hcont)
      as [[[xl xu] xx] E].
    unfold history_opens in Hopen.
    run_setup. rewrite Hm, Hboth, E.
    destruct (poa s || _) eqn:Hpar;
      [destruct Hmpi as [rank Hrank]; [done|]; rewrite Hrank|];
      destruct (hot_start (history s)) as [[log|why]|]; simpl; try done;
      by destruct (Hopen why).
  - intros [Hboth Hmpi] why Hwhy.
    run_setup. rewrite Hboth, Hwhy.
    destruct (poa s || _) eqn:Hpar;
      [destruct Hmpi as [rank Hrank]; [done|]; rewrite Hrank|]; done.
Qed.

End Setup.

Section SetupSamples.
Import Samples.

Lemma noncontinuous_variable_rejected_sample :
  (∃ msg, (__solve__ serial with_integer fresh).1 = Raise (IOError msg)) ∧
  trace (__solve__ serial with_integer fresh).2 = trace fresh ∧
  ((__solve__ serial with_integer fresh).1
     = Raise (IOError "NLPQL cannot handle integer design variables") ∨
   (__solve__ serial with_integer fresh).1
     = Raise (IOError "NLPQL cannot handle discrete design variables")).
Proof.
  destruct (noncontinuous_variable_rejected serial with_integer fresh
              (mkVariable "x2" "i" (-10)%Z 10%Z (-4)%Z))
    as (Hio & Htrace & Hmsg & _).
  - split; [reflexivity|]. simpl. discriminate.
  - right. left.
  - left. reflexivity.
  - split_and!; [exact Hio|exact Htrace|].
    apply Hmsg. intros why. simpl. discriminate.
Defined.

(** A solve of the same problem that is to replay a log which is not
    there ends before the variables are looked at. *)
Example integer_variable_missing_log :
  (__solve__ missing_log with_integer fresh).1 = Raise (IOError "hist.cue").
Proof. by vm_compute. Qed.

(** What the solve of [with_integer] raises, and that its text names
    neither variable. *)
Example integer_variable_error :
  (__solve__ serial with_integer fresh).1
    = Raise (IOError "NLPQL cannot handle integer design variables") ∧
  contains "x1" "NLPQL cannot handle integer design variables" = false ∧
  contains "x2" "NLPQL cannot handle integer design variables" = false.
Proof. by vm_compute. Qed.

(** C3, as stated, fails: the exception is not a [ConfigurationError], and
    its message names no variable. *)
Lemma integer_variable_not_named :
  ¬ rejected_naming_variable (__solve__ serial with_integer fresh).1
      with_integer.
Proof.
  intros (e & v & He & _ & Hv & _ & Hname).
  destruct integer_variable_error as (Hrun & Hx1 & Hx2).
  rewrite Hrun in He. injection He as <-. simpl in Hname.
  apply elem_of_cons in Hv as [->|Hv]; [simpl in Hname; congruence|].
  apply list_elem_of_singleton in Hv as ->. simpl in Hname. congruence.
Qed.

Lemma unconstrained_problem_rejected_sample :
  (∃ e, (__solve__ serial rosenbrock fresh).1 = Raise e) ∧
  evaluations (trace (__solve__ serial rosenbrock fresh).2) = [] ∧
  (∃ msg, (__solve__ serial rosenbrock fresh).1 = Raise (IOError msg)) ∧
  (__solve__ serial rosenbrock fresh).1 =
    Raise (IOError
      "ALGENCAN support for unconstrained problems not implemented yet") ∧
  trace (__solve__ serial rosenbrock fresh).2 = trace fresh.
Proof.
  destruct (unconstrained_problem_rejected serial rosenbrock fresh)
    as (Hraise & Hevals & Hio & Hmsg & _); [reflexivity|].
  assert (parallel_setup_ok serial) as Hpar.
  { split; [reflexivity|]. simpl. discriminate. }
  split_and!; [exact Hraise|exact Hevals|by apply Hio|..];
    apply Hmsg; try exact Hpar.
  - intros why. simpl. discriminate.
  - intros v Hv [Hi|Hd];
      repeat (apply elem_of_cons in Hv as [->|Hv]; [by simpl in *|]);
      by apply not_elem_of_nil in Hv.
  - intros why. simpl. discriminate.
  - intros v Hv [Hi|Hd];
      repeat (apply elem_of_cons in Hv as [->|Hv]; [by simpl in *|]);
      by apply not_elem_of_nil in Hv.
Defined.

(** C4, as stated, fails: the solve of [examples/rosenbrock.py] with this
    adapter raises an [IOError], not a [ConfigurationError]. *)
Lemma unconstrained_raises_IOError :
  ¬ rejected_as_configuration (__solve__ serial rosenbrock fresh).1.
Proof.
  intros (e & He & msg & ->). by vm_compute in He.
Qed.

End SetupSamples.

(** ** The promotion of the temporary log *)

Section PromotionFacts.
Context {F : Type} `{PyFloat F}.
Implicit Types (st : @state F) (d : gmap string string).

Lemma append_suffix_ne (name a b : string) :
  a ≠ b → name +:+ a ≠ name +:+ b.
Proof.
  intros Hab. induction name as [|c name IH]; simpl; [done|].
  intros [= Heq]. by apply IH.
Qed.

Lemma os_remove_present path content st :
  fs st !! path = Some content →
  os_remove path st = (Ok tt, set_fs (delete path (fs st)) st).
Proof.
  intros Hp. unfold os_remove, mbind, M_bind, gets, modify. by rewrite Hp.
Qed.

Lemma os_rename_present src dst content st :
  fs st !! src = Some content →
  os_rename src dst st
    = (Ok tt, set_fs (<[dst := content]> (delete src (fs st))) st).
Proof.
  intros Hp. unfold os_rename, mbind, M_bind, gets, modify. by rewrite Hp.
Qed.

Lemma run_cons (step : @M F unit) steps st st1 :
  step st = (Ok tt, st1) → run (step :: steps) st = run steps st1.
Proof. intros Hs. simpl. unfold mbind, M_bind. by rewrite Hs. Qed.

(** The four states that the promotion goes through. *)
Lemma promotion_steps name st cue bin cue' bin' :
  fs st !! (name +:+ ".cue") = Some cue →
  fs st !! (name +:+ ".bin") = Some bin →
  fs st !! (name +:+ "_tmp.cue") = Some cue' →
  fs st !! (name +:+ "_tmp.bin") = Some bin' →
  let d1 := delete (name +:+ ".cue") (fs st) in
  let d2 := delete (name +:+ ".bin") d1 in
  let d3 := <[name +:+ ".cue" := cue']> (delete (name +:+ "_tmp.cue") d2) in
  let d4 := <[name +:+ ".bin" := bin']> (delete (name +:+ "_tmp.bin") d3) in
  interrupted name 1 st = (Ok tt, set_fs d1 st) ∧
  interrupted name 2 st = (Ok tt, set_fs d2 (set_fs d1 st)) ∧
  interrupted name 3 st = (Ok tt, set_fs d3 (set_fs d2 (set_fs d1 st))) ∧
  run (promotion name) st
    = (Ok tt, set_fs d4 (set_fs d3 (set_fs d2 (set_fs d1 st)))).
Proof.
  intros H1 H2 H3 H4 d1 d2 d3 d4.
  assert (name +:+ ".cue" ≠ name +:+ ".bin") by (by apply append_suffix_ne).
  assert (name +:+ ".cue" ≠ name +:+ "_tmp.cue") by (by apply append_suffix_ne).
  assert (name +:+ ".cue" ≠ name +:+ "_tmp.bin") by (by apply append_suffix_ne).
  assert (name +:+ ".bin" ≠ name +:+ "_tmp.cue") by (by apply append_suffix_ne).
  assert (name +:+ ".bin" ≠ name +:+ "_tmp.bin") by (by apply append_suffix_ne).
  assert (name +:+ "_tmp.cue" ≠ name +:+ "_tmp.bin")
    by (by apply append_suffix_ne).
  assert (os_remove (name +:+ ".cue") st = (Ok tt, set_fs d1 st)) as E1.
  { by apply (os_remove_present _ cue). }
  assert (os_remove (name +:+ ".bin") (set_fs d1 st)
            = (Ok tt, set_fs d2 (set_fs d1 st))) as E2.
  { apply (os_remove_present _ bin). simpl. subst d1.
    by rewrite lookup_delete_ne. }
  assert (os_rename (name +:+ "_tmp.cue") (name +:+ ".cue")
            (set_fs d2 (set_fs d1 st))
            = (Ok tt, set_fs d3 (set_fs d2 (set_fs d1 st)))) as E3.
  { apply os_rename_present. simpl. subst d1 d2.
    by rewrite !lookup_delete_ne. }
  assert (os_rename (name +:+ "_tmp.bin") (name +:+ ".bin")
            (set_fs d3 (set_fs d2 (set_fs d1 st)))
            = (Ok tt, set_fs d4 (set_fs d3 (set_fs d2 (set_fs d1 st))))) as E4.
  { apply os_rename_present. simpl. subst d1 d2 d3.
    rewrite lookup_insert_ne by done. by rewrite !lookup_delete_ne. }
  unfold interrupted, promotion. simpl take.
  repeat split.
  - by rewrite (run_cons _ _ _ _ E1).
  - by rewrite (run_cons _ _ _ _ E1), (run_cons _ _ _ _ E2).
  - by rewrite (run_cons _ _ _ _ E1), (run_cons _ _ _ _ E2),
      (run_cons _ _ _ _ E3).
  - by rewrite (run_cons _ _ _ _ E1), (run_cons _ _ _ _ E2),
      (run_cons _ _ _ _ E3), (run_cons _ _ _ _ E4).
Qed.

Lemma promotion_run name st cue bin cue' bin' :
  canonical_log name (fs st) = Some (cue, bin) →
  temporary_log name (fs st) = Some (cue', bin') →
  (run (promotion name) st).1 = Ok tt ∧
  canonical_log name (fs (run (promotion name) st).2) = Some (cue', bin') ∧
  temporary_log name (fs (run (promotion name) st).2) = None ∧
  (∀ k, (1 ≤ k ≤ 3)%nat →
        canonical_log name (fs (interrupted name k st).2) = None).
Proof.
  unfold canonical_log at 1. unfold temporary_log at 1.
  destruct (fs st !! (name +:+ ".cue")) as [c1|] eqn:H1; [|done].
  destruct (fs st !! (name +:+ ".bin")) as [c2|] eqn:H2; [|done].
  destruct (fs st !! (name +:+ "_tmp.cue")) as [c3|] eqn:H3; [|done].
  destruct (fs st !! (name +:+ "_tmp.bin")) as [c4|] eqn:H4; [|done].
  intros [= -> ->] [= -> ->].
  destruct (promotion_steps name st _ _ _ _ H1 H2 H3 H4)
    as (E1 & E2 & E3 & E4).
  assert (name +:+ ".cue" ≠ name +:+ ".bin") by (by apply append_suffix_ne).
  assert (name +:+ ".cue" ≠ name +:+ "_tmp.cue") by (by apply append_suffix_ne).
  assert (name +:+ ".cue" ≠ name +:+ "_tmp.bin") by (by apply append_suffix_ne).
  assert (name +:+ ".bin" ≠ name +:+ "_tmp.cue") by (by apply append_suffix_ne).
  assert (name +:+ ".bin" ≠ name +:+ "_tmp.bin") by (by apply append_suffix_ne).
  assert (name +:+ "_tmp.cue" ≠ name +:+ "_tmp.bin")
    by (by apply append_suffix_ne).
  rewrite E4. simpl. repeat split.
  - unfold canonical_log. by simplify_map_eq.
  - unfold temporary_log. by simplify_map_eq.
  - intros k Hk. unfold canonical_log.
    destruct k as [|[|[|[|k]]]]; try lia.
    + rewrite E1. simpl. by simplify_map_eq.
    + rewrite E2. simpl. by simplify_map_eq.
    + rewrite E3. simpl. by simplify_map_eq.
Qed.


(** C2, as the code has it.  At the end of a solve that recorded into a
    temporary log, on the root, with the replayed log and its temporary
    twin both on disk, [__solve__] ends with the temporary index and data
    under the names of the log and nothing under the temporary names.  It
    gets there by removing first: stopped after one, two or three of its
    four file operations, it leaves no whole log under the name of the
    log. *)
Theorem promotion_removes_then_renames st cue bin cue' bin' :
  let name := filename (hos_file st) in
  sto_hst st = true →
  canonical_log name (fs st) = Some (cue, bin) →
  temporary_log name (fs st) = Some (cue', bin') →
  (close_history 0 true st).1 = Ok tt ∧
  canonical_log name (fs (close_history 0 true st).2) = Some (cue', bin') ∧
  temporary_log name (fs (close_history 0 true st).2) = None ∧
  (∀ k, (1 ≤ k ≤ 3)%nat →
        canonical_log name (fs (interrupted name k st).2) = None).
Proof.
  intros name Hsto Hcan Htmp.
  pose proof (promotion_run name st _ _ _ _ Hcan Htmp) as (_ & _ & _ & Hmid).
  pose proof (promotion_run name
                (add_event EvHosClose (add_event EvLogClose st))
                _ _ _ _ Hcan Htmp) as (Hok & Hnew & Hgone & _).
  assert (close_history 0 true st
            = run (promotion name)
                (add_event EvHosClose (add_event EvLogClose st))) as ->.
  { unfold close_history, when, log_close, hos_close, emit.
    unfold mbind, M_bind, gets, modify. simpl. by rewrite Hsto. }
  done.
Qed.

(** Off the root, without recording, or without a temporary log, the end of
    the solve touches no file. *)
Lemma close_history_keeps_files rank tmp_file st :
  rank ≠ 0%nat ∨ sto_hst st = false ∨ tmp_file = false →
  fs (close_history rank tmp_file st).2 = fs st.
Proof.
  intros Hc. unfold close_history, when, log_close, hos_close, emit.
  unfold mbind, M_bind, mret, M_ret, gets, modify.
  destruct (rank =? 0)%nat eqn:Hr; simpl; [|done].
  destruct (sto_hst st) eqn:Hs; simpl; [|done].
  destruct tmp_file; simpl; [|done].
  apply Nat.eqb_eq in Hr. by destruct Hc as [?|[?|?]].
Qed.

End PromotionFacts.

Section PromotionSamples.
Import Samples.

Lemma promotion_removes_then_renames_sample :
  (close_history 0 true to_promote).1 = Ok tt ∧
  canonical_log "hist" (fs (close_history 0 true to_promote).2)
    = Some ("new index", "new data") ∧
  temporary_log "hist" (fs (close_history 0 true to_promote).2) = None ∧
  (∀ k, (1 ≤ k ≤ 3)%nat →
        canonical_log "hist" (fs (interrupted "hist" k to_promote).2) = None).
Proof.
  apply (promotion_removes_then_renames to_promote "old index" "old data");
    reflexivity.
Defined.

(** C2, as stated, fails: stopped after its first file operation the
    promotion has removed the index of the log and put nothing in its
    place. *)
Lemma promotion_is_not_atomic : ¬ all_or_nothing "hist" to_promote.
Proof.
  intros Hclaim. destruct (Hclaim 1%nat) as [[log Hlog] _].
  by vm_compute in Hlog.
Qed.

End PromotionSamples.

(** ** The dense Jacobian *)

Section Jacobian.
Context {F : Type} `{PyFloat F}.
Implicit Types (st : @state F) (d : @matrix F)
  (jcfun jcvar : list Z) (jcval : list (@num F)).

(** What one pass over the variables leaves in the buffers, when it
    completes: [len] more entries, for row [jj] and columns [a], [a+1], ...;
    the entries before them untouched. *)
Lemma jac_row_Ok jj a len (dgg : option matrix) jcfun jcvar jcval k jcfun' jcvar' jcval' k' :
  jac_row jj (seq a len) dgg (jcfun, jcvar, jcval, k)
    = Ok (jcfun', jcvar', jcval', k') →
  k' = (k + len)%nat ∧
  length jcfun' = length jcfun ∧ length jcvar' = length jcvar ∧
  length jcval' = length jcval ∧
  (∀ t, (t < len)%nat →
        jcfun' !! (k + t)%nat = Some (Z.of_nat jj + 1)%Z ∧
        jcvar' !! (k + t)%nat = Some (Z.of_nat (a + t) + 1)%Z ∧
        ∃ d v, dgg = Some d ∧ getitem2 d jj (a + t) = Ok v ∧
               jcval' !! (k + t)%nat = Some v) ∧
  (∀ i, (i < k)%nat →
        jcfun' !! i = jcfun !! i ∧ jcvar' !! i = jcvar !! i ∧
        jcval' !! i = jcval !! i).
Proof.
  revert a jcfun jcvar jcval k.
  induction len as [|len IH]; intros a jcfun jcvar jcval k; simpl.
  - intros [= <- <- <- <-]. split_and!; try done; [lia|intros; lia..].
  - destruct (setitem jcfun k _) as [jcfun1| |] eqn:E1; simpl; try done.
    destruct (setitem jcvar k _) as [jcvar1| |] eqn:E2; simpl; try done.
    destruct dgg as [d|]; simpl; [|done].
    destruct (getitem2 d jj a) as [v| |] eqn:E3; simpl; try done.
    destruct (setitem jcval k v) as [jcval1| |] eqn:E4; simpl; try done.
    apply setitem_Ok_inv in E1 as [L1 ->].
    apply setitem_Ok_inv in E2 as [L2 ->].
    apply setitem_Ok_inv in E4 as [L4 ->].
    intros Hrec. apply IH in Hrec as (-> & Hl1 & Hl2 & Hl4 & Hnew & Hold).
    rewrite !length_insert in *.
    split_and!; try done; [lia| |].
    + intros [|t] Ht.
      * rewrite !Nat.add_0_r.
        destruct (Hold k) as (-> & -> & ->); [lia|].
        rewrite !list_lookup_insert_eq by done.
        split_and!; try done. by exists d, v.
      * destruct (Hnew t) as (Hf & Hv & Hd); [lia|].
        replace (k + S t)%nat with (k + 1 + t)%nat by lia.
        replace (a + S t)%nat with (S a + t)%nat by lia. done.
    + intros i Hi. destruct (Hold i) as (-> & -> & ->); [lia|].
      rewrite !list_lookup_insert_ne by lia. done.
Qed.

Lemma jac_rows_Ok b rl n (dgg : option matrix) jcfun jcvar jcval k jcfun' jcvar' jcval' k' :
  jac_rows (seq b rl) (seq 0 n) dgg (jcfun, jcvar, jcval, k)
    = Ok (jcfun', jcvar', jcval', k') →
  k' = (k + rl * n)%nat ∧
  length jcfun' = length jcfun ∧ length jcvar' = length jcvar ∧
  length jcval' = length jcval ∧
  (∀ u t, (u < rl)%nat → (t < n)%nat →
        jcfun' !! (k + u * n + t)%nat = Some (Z.of_nat (b + u) + 1)%Z ∧
        jcvar' !! (k + u * n + t)%nat = Some (Z.of_nat t + 1)%Z ∧
        ∃ d v, dgg = Some d ∧ getitem2 d (b + u) t = Ok v ∧
               jcval' !! (k + u * n + t)%nat = Some v) ∧
  (∀ i, (i < k)%nat →
        jcfun' !! i = jcfun !! i ∧ jcvar' !! i = jcvar !! i ∧
        jcval' !! i = jcval !! i).
Proof.
  revert b jcfun jcvar jcval k.
  induction rl as [|rl IH]; intros b jcfun jcvar jcval k; simpl.
  - intros [= <- <- <- <-]. split_and!; try done; [lia|intros; lia..].
  - destruct (jac_row b (seq 0 n) dgg _) as [[[[jcfun1 jcvar1] jcval1] k1]| |]
      eqn:Erow; simpl; try done.
    apply jac_row_Ok in Erow as (-> & R1 & R2 & R4 & Rnew & Rold).
    intros Hrec. apply IH in Hrec as (-> & Hl1 & Hl2 & Hl4 & Hnew & Hold).
    split_and!; try congruence; [lia| |].
    + intros [|u] t Hu Ht.
      * destruct (Hold (k + t)%nat) as (E1 & E2 & E4); [lia|].
        destruct (Rnew t Ht) as (Hf & Hv & Hd).
        replace (k + 0 * n + t)%nat with (k + t)%nat by lia.
        rewrite Nat.add_0_r, E1, E2, E4. done.
      * destruct (Hnew u t) as (Hf & Hv & Hd); [lia|done|].
        replace (k + S u * n + t)%nat with (k + n + u * n + t)%nat by lia.
        replace (b + S u)%nat with (S b + u)%nat by lia. done.
    + intros i Hi. destruct (Hold i) as (-> & -> & ->); [lia|].
      by apply Rold.
Qed.


(** The loops complete when the buffers are long enough and the Jacobian
    has the entries they ask for. *)
Lemma jac_row_total jj a len d jcfun jcvar jcval k :
  (k + len ≤ length jcfun)%nat → (k + len ≤ length jcvar)%nat →
  (k + len ≤ length jcval)%nat →
  (∀ t, (t < len)%nat → ∃ v, getitem2 d jj (a + t) = Ok v) →
  ∃ b', jac_row jj (seq a len) (Some d) (jcfun, jcvar, jcval, k) = Ok b'.
Proof.
  revert a jcfun jcvar jcval k.
  induction len as [|len IH]; intros a jcfun jcvar jcval k L1 L2 L4 Hd; simpl.
  - by eexists.
  - destruct (Hd 0%nat) as [v Hv]; [lia|]. rewrite Nat.add_0_r in Hv.
    rewrite !setitem_Ok by lia. simpl. rewrite Hv. simpl.
    rewrite setitem_Ok by lia. simpl.
    apply IH; rewrite ?length_insert; try lia.
    intros t Ht. replace (S a + t)%nat with (a + S t)%nat by lia.
    apply Hd. lia.
Qed.

Lemma jac_rows_total b rl n d jcfun jcvar jcval k :
  (k + rl * n ≤ length jcfun)%nat → (k + rl * n ≤ length jcvar)%nat →
  (k + rl * n ≤ length jcval)%nat →
  (∀ u t, (u < rl)%nat → (t < n)%nat → ∃ v, getitem2 d (b + u) t = Ok v) →
  ∃ b', jac_rows (seq b rl) (seq 0 n) (Some d) (jcfun, jcvar, jcval, k)
          = Ok b'.
Proof.
  revert b jcfun jcvar jcval k.
  induction rl as [|rl IH]; intros b jcfun jcvar jcval k L1 L2 L4 Hd; simpl.
  - by eexists.
  - destruct (jac_row_total b 0 n d jcfun jcvar jcval k)
      as [[[[jcfun1 jcvar1] jcval1] k1] Erow]; try lia.
    { intros t Ht. rewrite <- (Nat.add_0_r b). by apply Hd; [lia|]. }
    rewrite Erow. simpl.
    apply jac_row_Ok in Erow as (-> & R1 & R2 & R4 & _).
    apply IH; try lia.
    intros u t Hu Ht. replace (S b + u)%nat with (b + S u)%nat by lia.
    apply Hd; lia.
Qed.

Lemma assign_objective_gradient_total a len d jfval :
  (a + len ≤ length jfval)%nat →
  (∀ t, (t < len)%nat → ∃ v, getitem2 d 0 (a + t) = Ok v) →
  ∃ jfval', assign_objective_gradient (seq a len) (Some d) jfval = Ok jfval'.
Proof.
  revert a jfval. induction len as [|len IH]; intros a jfval L Hd; simpl.
  - by eexists.
  - destruct (Hd 0%nat) as [v Hv]; [lia|]. rewrite Nat.add_0_r in Hv.
    rewrite Hv. simpl. rewrite setitem_Ok by lia. simpl.
    apply IH; rewrite ?length_insert; try lia.
    intros t Ht. replace (S a + t)%nat with (a + S t)%nat by lia.
    apply Hd. lia.
Qed.

(** A call of [evalgjac] that returns has evaluated the user model and the
    gradient routine, and has laid the constraint Jacobian out row by
    row. *)
Lemma evalgjac_Ok_layout s p c n x jfval m jcfun jcvar jcval jcnnz flag st
    jfval' jcfun' jcvar' jcval' jcnnz' fail st' :
  evalgjac s p c n x jfval m jcfun jcvar jcval jcnnz flag st
    = (Ok (jfval', jcfun', jcvar', jcval', jcnnz', fail), st') →
  ∃ ff gg dff dgg,
    obj_fun p (XFlat x) = Ok (ff, gg, fail) ∧
    getGrad s x (group_ids c) [ff] gg = Ok (dff, dgg) ∧
    jcnnz' = (length (constraints p) * length (variables p))%nat ∧
    ∀ jj ii, (jj < length (constraints p))%nat →
             (ii < length (variables p))%nat →
      jcfun' !! (jj * length (variables p) + ii)%nat
        = Some (Z.of_nat jj + 1)%Z ∧
      jcvar' !! (jj * length (variables p) + ii)%nat
        = Some (Z.of_nat ii + 1)%Z ∧
      ∃ v, getitem2 dgg jj ii = Ok v ∧
           jcval' !! (jj * length (variables p) + ii)%nat = Some v.
Proof.
  intros Hrun. unfold evalgjac in Hrun.
  invert_run Hrun.
  unfold mret, M_ret in Hrun. simplify_eq.
  match goal with
  | Hf : lift (get_local "fail" ?o) _ = _ |- _ =>
      apply lift_Ok_inv in Hf as [Hf _]; destruct o as [fl|]; [|done];
      injection Hf as ->
  end.
  match goal with
  | Hj : lift (jac_rows _ _ _ _) _ = _ |- _ =>
      apply lift_Ok_inv in Hj as [Hj _];
      apply jac_rows_Ok in Hj as (Hk & _ & _ & _ & Hnew & _)
  end.
  match goal with
  | Hl : (if negb ?b then _ else _) _ = _ |- _ =>
      destruct b; simpl in Hl; [by unfold mret, M_ret in Hl|];
      rename Hl into Hlive
  end.
  invert_run Hlive. unfold mret, M_ret in Hlive. simplify_eq.
  match goal with
  | Hc : call_obj_fun _ _ _ = _ |- _ =>
      unfold call_obj_fun in Hc;
      apply bind_Ok_inv in Hc as (? & ? & _ & Hc);
      apply lift_Ok_inv in Hc as [Hobj _]
  end.
  match goal with
  | Hg : lift (getGrad _ _ _ _ _) _ = _ |- _ =>
      apply lift_Ok_inv in Hg as [Hgrad _]
  end.
  eexists _, _, _, _. split_and!; [exact Hobj|exact Hgrad|lia|].
  intros jj ii Hjj Hii.
  destruct (Hnew jj ii Hjj Hii) as (Hf & Hv & d & v & [= <-] & Hd & Hval).
  simpl in *. split_and!; [done|done|]. by exists v.
Qed.

(** C5.  Every call of [evalgjac] that returns has filled the buffers of
    the constraint Jacobian densely, constraint by constraint and variable
    by variable within a constraint: [jcnnz] is the number of constraints
    times the number of variables, entry [jj * n + ii] holds row [jj + 1],
    column [ii + 1] and the element [dgg[jj, ii]] of the Jacobian that the
    gradient routine returned.  A live call returns whenever the buffers
    are long enough for the Jacobian. *)
Theorem evalgjac_dense_jacobian s p c n x jfval m jcfun jcvar jcval jcnnz
    flag st :
  let nvar := length (variables p) in
  let ncon := length (constraints p) in
  (∀ jfval' jcfun' jcvar' jcval' jcnnz' fail st',
     evalgjac s p c n x jfval m jcfun jcvar jcval jcnnz flag st
       = (Ok (jfval', jcfun', jcvar', jcval', jcnnz', fail), st') →
     ∃ ff gg dff dgg,
       obj_fun p (XFlat x) = Ok (ff, gg, fail) ∧
       getGrad s x (group_ids c) [ff] gg = Ok (dff, dgg) ∧
       jcnnz' = (ncon * nvar)%nat ∧
       ∀ jj ii, (jj < ncon)%nat → (ii < nvar)%nat →
         jcfun' !! (jj * nvar + ii)%nat = Some (Z.of_nat jj + 1)%Z ∧
         jcvar' !! (jj * nvar + ii)%nat = Some (Z.of_nat ii + 1)%Z ∧
         ∃ v, getitem2 dgg jj ii = Ok v ∧
              jcval' !! (jj * nvar + ii)%nat = Some v) ∧
  (∀ ff gg fail dff dgg,
     h_start st = false →
     obj_fun p (XFlat x) = Ok (ff, gg, fail) →
     getGrad s x (group_ids c) [ff] gg = Ok (dff, dgg) →
     (nvar ≤ length jfval)%nat →
     (ncon * nvar ≤ length jcfun)%nat →
     (ncon * nvar ≤ length jcvar)%nat →
     (ncon * nvar ≤ length jcval)%nat →
     (∀ ii, (ii < nvar)%nat → ∃ v, getitem2 dff 0 ii = Ok v) →
     (∀ jj ii, (jj < ncon)%nat → (ii < nvar)%nat →
               ∃ v, getitem2 dgg jj ii = Ok v) →
     ∃ jfval' jcfun' jcvar' jcval' st',
       evalgjac s p c n x jfval m jcfun jcvar jcval jcnnz flag st
         = (Ok (jfval', jcfun', jcvar', jcval', (ncon * nvar)%nat, fail),
            st')).
Proof.
  intros nvar ncon. split.
  - intros jfval' jcfun' jcvar' jcval' jcnnz' fail st'.
    apply evalgjac_Ok_layout.
  - intros ff gg fail dff dgg Hs Hobj Hgrad Lf L1 L2 L4 Hdff Hdgg.
    destruct (assign_objective_gradient_total 0 nvar dff jfval)
      as [jfval' Ef]; [lia|done|].
    destruct (jac_rows_total 0 ncon nvar dgg jcfun jcvar jcval 0)
      as [[[[jcfun' jcvar'] jcval'] k'] Ej]; [lia|lia|lia|done|].
    pose proof Ej as Ek.
    apply jac_rows_Ok in Ek as (-> & _).
    unfold evalgjac. run_callback. fold nvar ncon.
    repeat (simpl; rewrite ?Hs, ?Hobj, ?Hgrad, ?Ef, ?Ej).
    destruct (sto_hst st && _); simpl; rewrite ?Ef, ?Ej; simpl; eauto 10.
Qed.

End Jacobian.

Section JacobianSamples.
Import Samples.

(** One constraint, two variables: rows 1, 1 and columns 1, 2. *)
Example evalgjac_constrained :
  (evalgjac serial constrained serial_closure 2 [-3; -4]%Z
     [Real 0%Z; Real 0%Z] 1 [0; 0]%Z [0; 0]%Z [Real 0%Z; Real 0%Z] 0 0%Z
     fresh).1
  = Ok ([Real (-15608)%Z; Real (-2600)%Z], [1; 1]%Z, [1; 2]%Z,
        [Real 1%Z; Real 1%Z], 2%nat, 0%Z).
Proof. by vm_compute. Qed.

Lemma evalgjac_dense_jacobian_sample :
  ∃ jfval' jcfun' jcvar' jcval' st',
    evalgjac serial constrained serial_closure 2 [-3; -4]%Z
      [Real 0%Z; Real 0%Z] 1 [0; 0]%Z [0; 0]%Z [Real 0%Z; Real 0%Z] 0 0%Z
      fresh
    = (Ok (jfval', jcfun', jcvar', jcval', 2%nat, 0%Z), st').
Proof.
  destruct (evalgjac_dense_jacobian serial constrained serial_closure 2
              [-3; -4]%Z [Real 0%Z; Real 0%Z] 1 [0; 0]%Z [0; 0]%Z
              [Real 0%Z; Real 0%Z] 0 0%Z fresh) as [_ Hlive].
  eapply Hlive; [reflexivity|reflexivity|reflexivity|simpl; lia..| |].
  - intros [|[|ii]] Hii; simpl in Hii; [by eexists..|lia].
  - intros [|jj] [|[|ii]] Hjj Hii; simpl in Hjj, Hii; try lia; by eexists.
Defined.

End JacobianSamples.

(** ** Variable groups *)

Section Groups.
Context {F : Type} `{PyFloat F}.
Implicit Types (st : @state F) (x : list F) (p : @problem F)
  (gids : gmap string (nat * nat)) (xg : gmap string (@gval F)).

Lemma group_entry_scalar x s e :
  (e - s = 1)%nat →
  group_entry x (s, e)
    = match x !! s with
      | Some v => Ok (Scalar v)
      | None => Raise IndexError
      end.
Proof.
  intros Hd. unfold group_entry. simpl. rewrite Hd. simpl.
  unfold getitem. by destruct (x !! s).
Qed.

Lemma group_entry_slice x s e :
  (e - s ≠ 1)%nat → group_entry x (s, e) = Ok (Slice (slice x s e)).
Proof.
  intros Hd. unfold group_entry. simpl.
  by destruct (Nat.eqb_spec (e - s) 1).
Qed.

(** The dictionary [xg] holds the entry of every group of the table and
    nothing else, unless a group of one index lies beyond the end of [x]. *)
Lemma expand_groups_spec gids x :
  match expand_groups gids x with
  | Ok xg =>
      ∀ g, match gids !! g with
           | Some ids => ∃ v, group_entry x ids = Ok v ∧ xg !! g = Some v
           | None => xg !! g = None
           end
  | Raise e =>
      e = IndexError ∧
      ∃ g ids, gids !! g = Some ids ∧ group_entry x ids = Raise IndexError
  | Blocked => False
  end.
Proof.
  unfold expand_groups.
  apply (map_fold_weak_ind (λ r m,
    match r with
    | Ok xg =>
        ∀ g, match m !! g with
             | Some ids => ∃ v, group_entry x ids = Ok v ∧ xg !! g = Some v
             | None => xg !! g = None
             end
    | Raise e =>
        e = IndexError ∧
        ∃ g ids, m !! g = Some ids ∧ group_entry x ids = Raise IndexError
    | Blocked => False
    end)).
  - intros g. by rewrite !lookup_empty.
  - intros i ids m r Hi Hr. destruct r as [xg|e|]; simpl; [| |done].
    + destruct (group_entry x ids) as [v|e|] eqn:Hentry; simpl.
      * intros g. destruct (decide (i = g)) as [->|Hne].
        -- rewrite !lookup_insert_eq. by exists v.
        -- rewrite !lookup_insert_ne by done. apply Hr.
      * assert (e = IndexError) as ->.
        { destruct ids as [s e0]. unfold group_entry in Hentry.
          simpl in Hentry. destruct (_ =? _)%nat; [|done].
          unfold getitem in Hentry. destruct (x !! s); simpl in Hentry;
            by simplify_eq. }
        split; [done|]. exists i, ids. by rewrite lookup_insert_eq.
      * destruct ids as [s e0]. unfold group_entry in Hentry.
        simpl in Hentry. destruct (_ =? _)%nat; [|done].
        unfold getitem in Hentry. by destruct (x !! s).
    + destruct Hr as (-> & g & ids' & Hg & Hentry). split; [done|].
      exists g, ids'. split; [|done].
      rewrite lookup_insert_ne; [done|]. intros ->. congruence.
Qed.


(** The table of [__solve__]: a group starts where the groups before it
    end. *)
Lemma make_group_ids_other (groups : list vargroup) k gids name :
  name ∉ (g_name <$> groups) →
  make_group_ids groups k gids !! name = gids !! name.
Proof.
  revert k gids. induction groups as [|g groups IH]; intros k gids Hn; simpl.
  - done.
  - rewrite fmap_cons in Hn. apply not_elem_of_cons in Hn as [Hne Hn].
    rewrite IH by done. by rewrite lookup_insert_ne.
Qed.

Lemma make_group_ids_lookup (pre post : list vargroup) g k gids :
  g_name g ∉ (g_name <$> post) →
  let start := (k + sum_list ((λ g', length (g_ids g')) <$> pre))%nat in
  make_group_ids (pre ++ g :: post) k gids !! g_name g
    = Some (start, (start + length (g_ids g))%nat).
Proof.
  intros Hn. revert k gids.
  induction pre as [|g0 pre IH]; intros k gids; simpl.
  - rewrite make_group_ids_other by done.
    rewrite lookup_insert_eq. by rewrite Nat.add_0_r.
  - rewrite IH. change (list_fmap vargroup nat ?f pre) with (f <$> pre).
    f_equal. f_equal; lia.
Qed.

(** On the root of a live solve, [evalfc] calls the user model, and calls
    it with the view of [x]. *)
Lemma evalfc_calls_model_with_view s p c n x f m g flag st xn :
  myrank c = 0%nat → h_start st = false →
  group_view p (group_ids c) x = Ok xn →
  EvObjFun xn ∈ trace (evalfc s p c n x f m g flag st).2.
Proof.
  intros Hr Hs Hv.
  unfold evalfc. run_callback.
  rewrite Hv, Hr. simpl.
  destruct (0 <=? iprint s)%Z, (pll c);
    repeat (simpl; rewrite ?Hs);
    destruct (obj_fun p xn) as [[[ff gg] fail]|e|]; simpl;
    try destruct (sto_hst st); simpl;
    try destruct (coerce ff); simpl;
    try destruct (assign_constraints _ _ _); simpl;
    set_solver.
Qed.

(** C8.  Without groups the view of [x] is [x].  With groups, and every
    group of one index lying within [x], the view is a dictionary with one
    entry for each group of the table and no other: the scalar [x[start]]
    when [end - start = 1], the slice [x[start:end]] otherwise.  That view
    is what [evalfc] calls the user model with. *)
Theorem grouped_view_of_flat_vector s p c n x f m g flag st :
  (use_groups p = false → group_view p (group_ids c) x = Ok (XFlat x)) ∧
  (use_groups p = true →
   (∀ group start stop, group_ids c !! group = Some (start, stop) →
      (stop - start = 1)%nat → (start < length x)%nat) →
   ∃ xg, group_view p (group_ids c) x = Ok (XGroups xg) ∧
         dom xg = dom (group_ids c) ∧
         ∀ group start stop, group_ids c !! group = Some (start, stop) →
           ((stop - start = 1)%nat →
            ∃ v, x !! start = Some v ∧ xg !! group = Some (Scalar v)) ∧
           ((stop - start ≠ 1)%nat →
            xg !! group = Some (Slice (slice x start stop)))) ∧
  (∀ xn, myrank c = 0%nat → h_start st = false →
         group_view p (group_ids c) x = Ok xn →
         EvObjFun xn ∈ trace (evalfc s p c n x f m g flag st).2).
Proof.
  split_and!.
  - intros Hu. unfold group_view. by rewrite Hu.
  - intros Hu Hin. unfold group_view. rewrite Hu.
    pose proof (expand_groups_spec (group_ids c) x) as Hspec.
    destruct (expand_groups (group_ids c) x) as [xg|e|]; [| |done].
    + exists xg. split_and!; [done| |].
      * apply set_eq. intros group. rewrite !elem_of_dom.
        specialize (Hspec group).
        destruct (group_ids c !! group) as [ids|].
        -- destruct Hspec as (v & _ & ->). split; eauto.
        -- rewrite Hspec. split; intros [? ?]; done.
      * intros group start stop Hg. specialize (Hspec group).
        rewrite Hg in Hspec. destruct Hspec as (v & Hentry & Hxg).
        split; intros Hd.
        -- rewrite group_entry_scalar in Hentry by done.
           destruct (x !! start) as [v0|]; [|done].
           exists v0. split; [done|]. congruence.
        -- rewrite group_entry_slice in Hentry by done. congruence.
    + destruct Hspec as (_ & group & [start stop] & Hg & Hentry).
      destruct (decide (stop - start = 1)%nat) as [Hd|Hd].
      * rewrite group_entry_scalar in Hentry by done.
        destruct (lookup_lt_is_Some_2 x start) as [v Hv]; [by eapply Hin|].
        by rewrite Hv in Hentry.
      * by rewrite group_entry_slice in Hentry.
  - intros xn. apply evalfc_calls_model_with_view.
Qed.

End Groups.

Section GroupSamples.
Import Samples.

Example grouped_table :
  group_ids grouped_closure = <["y" := (2, 3)%nat]> (<["xvec" := (0, 2)%nat]> ∅).
Proof. reflexivity. Qed.

Example grouped_view :
  group_view grouped (group_ids grouped_closure) [1; 2; 3]%Z
  = Ok (XGroups (<["xvec" := Slice [1; 2]%Z]> (<["y" := Scalar 3%Z]> ∅))).
Proof. by vm_compute. Qed.

Lemma grouped_view_of_flat_vector_sample :
  (∃ xg, group_view grouped (group_ids grouped_closure) [1; 2; 3]%Z
           = Ok (XGroups xg) ∧
         dom xg = dom (group_ids grouped_closure) ∧
         ∀ group start stop,
           group_ids grouped_closure !! group = Some (start, stop) →
           ((stop - start = 1)%nat →
            ∃ v, [1; 2; 3]%Z !! start = Some v ∧
                 xg !! group = Some (Scalar v)) ∧
           ((stop - start ≠ 1)%nat →
            xg !! group = Some (Slice (slice [1; 2; 3]%Z start stop)))) ∧
  EvObjFun (XGroups (<["xvec" := Slice [1; 2]%Z]> (<["y" := Scalar 3%Z]> ∅)))
    ∈ trace (evalfc serial grouped grouped_closure 3 [1; 2; 3]%Z (Real 0%Z)
               1 [Real 0%Z] 0%Z fresh).2.
Proof.
  destruct (grouped_view_of_flat_vector serial grouped grouped_closure 3
              [1; 2; 3]%Z (Real 0%Z) 1 [Real 0%Z] 0%Z fresh)
    as (_ & Hgroups & Hcall).
  split.
  - apply Hgroups; [reflexivity|].
    rewrite grouped_table. intros group start stop Hl Hd.
    apply lookup_insert_Some in Hl as [[_ [= <- <-]]|[_ Hl]]; [simpl; lia|].
    apply lookup_insert_Some in Hl as [[_ [= <- <-]]|[_ Hl]];
      [simpl in Hd; lia|].
    by rewrite lookup_empty in Hl.
  - apply Hcall; [reflexivity|reflexivity|]. by vm_compute.
Defined.

End GroupSamples.

(** * More of the adapter *)

(** ** The buffers built by the set-up *)

Section SetupShapeFacts.
Context {F : Type}.
Implicit Types (vars : list (@variable F)) (v : @variable F)
  (cons : list constraint).

Lemma variables_handling_acc vars xl xu xx :
  (∀ v, v ∈ vars → ¬ noncontinuous v) →
  variables_handling vars xl xu xx
    = Ok (xl ++ (v_lower <$> filter continuous vars),
          xu ++ (v_upper <$> filter continuous vars),
          xx ++ (v_value <$> filter continuous vars)).
Proof.
  revert xl xu xx. induction vars as [|w vars IH]; intros xl xu xx Hc; simpl.
  - by rewrite !app_nil_r.
  - assert (∀ v, v ∈ vars → ¬ noncontinuous v) as Hc'.
    { intros v Hv. apply Hc. by right. }
    assert (¬ noncontinuous w) as Hw by (apply Hc; by left).
    rewrite filter_cons.
    destruct (decide (continuous w)) as [Ec|Ec]; unfold continuous in Ec.
    + rewrite bool_decide_eq_true_2 by done. rewrite IH by done. simpl.
      by rewrite <- !app_assoc.
    + rewrite bool_decide_eq_false_2 by done.
      case_bool_decide as Ei; [destruct Hw; by left|].
      case_bool_decide as Ed; [destruct Hw; by right|].
      by apply IH.
Qed.

(** X1.  When no variable is of kind ['i'] or ['d'], the variables handling
    returns the lower bounds, the upper bounds and the values of the
    variables of kind ['c'], in the order of the problem.  A variable of any
    other kind is left out without a word, so the three buffers have one
    entry per variable exactly when every variable is of kind ['c']. *)
Theorem variables_handling_flattens vars :
  (∀ v, v ∈ vars → ¬ noncontinuous v) →
  variables_handling vars [] [] []
    = Ok (v_lower <$> filter continuous vars,
          v_upper <$> filter continuous vars,
          v_value <$> filter continuous vars) ∧
  (length (filter continuous vars) = length vars ↔ Forall continuous vars).
Proof.
  intros Hc. split.
  - by rewrite variables_handling_acc.
  - induction vars as [|w vars IH]; simpl.
    + split; [constructor|done].
    + rewrite filter_cons.
      assert (∀ v, v ∈ vars → ¬ noncontinuous v) as Hc'.
      { intros v Hv. apply Hc. by right. }
      destruct (decide (continuous w)) as [Hw|Hw]; simpl.
      * rewrite Forall_cons. specialize (IH Hc'). split.
        -- intros [= Hl]. split; [done|]. by apply IH.
        -- intros [_ Hall]. f_equal. by apply IH.
      * split.
        -- intros Hl. pose proof (length_filter continuous vars). lia.
        -- intros Hall. by apply Forall_cons in Hall as [? _].
Qed.


Lemma variables_handling_first_acc (pre post : list (@variable F)) v xl xu xx :
  (∀ w, w ∈ pre → ¬ noncontinuous w) → noncontinuous v →
  variables_handling (pre ++ v :: post) xl xu xx
    = Raise (IOError
        (if bool_decide (v_type v = "i")
         then "NLPQL cannot handle integer design variables"
         else "NLPQL cannot handle discrete design variables")).
Proof.
  revert xl xu xx. induction pre as [|w pre IH]; intros xl xu xx Hpre Hv; simpl.
  - destruct Hv as [Hv|Hv]; rewrite Hv; by simpl.
  - assert (¬ noncontinuous w) as Hw by (apply Hpre; by left).
    assert (∀ w', w' ∈ pre → ¬ noncontinuous w') as Hpre'.
    { intros w' Hw'. apply Hpre. by right. }
    destruct (decide (v_type w = "c")) as [Ec|Ec];
      [rewrite (bool_decide_eq_true_2 _ Ec); by apply IH|].
    rewrite (bool_decide_eq_false_2 _ Ec).
    destruct (decide (v_type w = "i")) as [Ei|Ei]; [destruct Hw; by left|].
    rewrite (bool_decide_eq_false_2 _ Ei).
    destruct (decide (v_type w = "d")) as [Ed|Ed]; [destruct Hw; by right|].
    rewrite (bool_decide_eq_false_2 _ Ed). by apply IH.
Qed.

(** X2.  The first variable of kind ['i'] or ['d'] decides the error: the
    variables before it are passed over, the ones after it are not looked
    at, and the message is the one for its kind. *)
Theorem variables_handling_first_offender (pre post : list (@variable F)) v :
  (∀ w, w ∈ pre → ¬ noncontinuous w) → noncontinuous v →
  variables_handling (pre ++ v :: post) [] [] []
    = Raise (IOError
        (if bool_decide (v_type v = "i")
         then "NLPQL cannot handle integer design variables"
         else "NLPQL cannot handle discrete design variables")).
Proof. apply variables_handling_first_acc. Qed.

Lemma constraint_kinds_acc cons (equatn linear : list bool) :
  constraint_kinds cons equatn linear
    = (equatn ++ (is_equality <$> filter kind_known cons),
       linear ++ replicate (length cons) false).
Proof.
  revert equatn linear.
  induction cons as [|k cons IH]; intros equatn linear; simpl.
  - by rewrite !app_nil_r.
  - rewrite IH, filter_cons. unfold is_equality at 2.
    destruct (decide (kind_known k)) as [[Hk|Hk]|Hk]; simpl.
    + rewrite (bool_decide_eq_true_2 _ Hk). by rewrite <- !app_assoc.
    + rewrite Hk. simpl. by rewrite <- !app_assoc.
    + case_bool_decide as Ee; [destruct Hk; by left|].
      case_bool_decide as Ei; [destruct Hk; by right|].
      by rewrite <- !app_assoc.
Qed.

(** X3.  For a problem with constraints, the constraints handling marks no
    constraint as linear, and gives [equatn] one entry, in order, for each
    constraint of kind ['e'] (true) or ['i'] (false).  A constraint of any
    other kind gets no entry, so [equatn] has one entry per constraint
    exactly when every constraint is of one of the two kinds. *)
Theorem constraints_handling_shapes cons :
  cons ≠ [] →
  constraints_handling cons
    = Ok (is_equality <$> filter kind_known cons,
          replicate (length cons) false) ∧
  (length (filter kind_known cons) = length cons ↔ Forall kind_known cons).
Proof.
  intros Hne. split.
  - unfold constraints_handling.
    destruct cons as [|k cons]; [done|]. by rewrite constraint_kinds_acc.
  - clear Hne. induction cons as [|k cons IH]; simpl.
    + split; [constructor|done].
    + rewrite filter_cons.
      destruct (decide (kind_known k)) as [Hk|Hk]; simpl.
      * rewrite Forall_cons. split.
        -- intros [= Hl]. split; [done|]. by apply IH.
        -- intros [_ Hall]. f_equal. by apply IH.
      * split.
        -- intros Hl. pose proof (length_filter kind_known cons). lia.
        -- intros Hall. by apply Forall_cons in Hall as [? _].
Qed.

End SetupShapeFacts.

(** ** The table of variable groups *)

Section GroupTable.
Context {F : Type} `{PyFloat F}.
Implicit Types (groups : list vargroup) (gids : gmap string (nat * nat))
  (x : list F).

Lemma groups_size_cons g groups :
  groups_size (g :: groups) = (length (g_ids g) + groups_size groups)%nat.
Proof. reflexivity. Qed.

Lemma make_group_ids_bounds groups k gids name start stop :
  make_group_ids groups k gids !! name = Some (start, stop) →
  gids !! name = Some (start, stop) ∨
  ((k ≤ start)%nat ∧ (start ≤ stop)%nat ∧
   (stop ≤ k + groups_size groups)%nat ∧
   ∃ g, g ∈ groups ∧ g_name g = name ∧
        (stop - start)%nat = length (g_ids g)).
Proof.
  revert k gids. induction groups as [|g groups IH]; intros k gids; simpl.
  - by left.
  - intros Hl. apply IH in Hl as [Hl|(Hk & Hs & He & g' & Hg' & Hn & Hlen)].
    + apply lookup_insert_Some in Hl as [[<- [= <- <-]]|[_ Hl]]; [|by left].
      right. rewrite groups_size_cons. split_and!; try lia.
      exists g. split_and!; [by left|done|lia].
    + right. rewrite groups_size_cons. split_and!; try lia.
      exists g'. split_and!; [by right|done|done].
Qed.

Lemma make_group_ids_dom groups k gids :
  dom (make_group_ids groups k gids)
    = dom gids ∪ list_to_set (g_name <$> groups).
Proof.
  revert k gids. induction groups as [|g groups IH]; intros k gids; simpl.
  - by rewrite (right_id_L ∅ (∪)).
  - rewrite IH, dom_insert_L.
    rewrite (comm_L (∪) {[g_name g]} (dom gids)).
    by rewrite (assoc_L (∪)).
Qed.

(** X4.  The table that [__solve__] builds has one entry for each group
    name.  A group whose name is not used again by a later group gets the
    range that starts where the groups before it end and is as long as the
    group; every entry of the table is such a range, within the total size
    of the groups. *)
Theorem group_table_ranges groups :
  dom (make_group_ids groups 0 ∅) = list_to_set (g_name <$> groups) ∧
  (∀ pre g post, groups = pre ++ g :: post →
     g_name g ∉ (g_name <$> post) →
     make_group_ids groups 0 ∅ !! g_name g
       = Some (groups_size pre,
               (groups_size pre + length (g_ids g))%nat)) ∧
  (∀ name start stop,
     make_group_ids groups 0 ∅ !! name = Some (start, stop) →
     (start ≤ stop)%nat ∧ (stop ≤ groups_size groups)%nat ∧
     ∃ g, g ∈ groups ∧ g_name g = name ∧
          (stop - start)%nat = length (g_ids g)).
Proof.
  split_and!.
  - rewrite make_group_ids_dom, dom_empty_L. by rewrite (left_id_L ∅ (∪)).
  - intros pre g post -> Hn.
    by rewrite (make_group_ids_lookup pre post g 0 ∅ Hn).
  - intros name start stop Hl.
    apply make_group_ids_bounds in Hl as [Hl|(_ & Hs & He & Hg)]; [done|].
    split_and!; [done|lia|done].
Qed.

(** X5.  With the table of [__solve__], the view of [evalfc] never raises
    on a vector that has at least as many entries as the groups cover. *)
Theorem group_view_of_setup_table p x :
  (groups_size (vargroups p) ≤ length x)%nat →
  ∃ xn, group_view p
          (if use_groups p then make_group_ids (vargroups p) 0 ∅ else ∅) x
        = Ok xn.
Proof.
  intros Hx. unfold group_view. destruct (use_groups p); [|by eexists].
  pose proof (expand_groups_spec (make_group_ids (vargroups p) 0 ∅) x)
    as Hspec.
  destruct (expand_groups _ x) as [xg|e|]; [by eexists| |done].
  destruct Hspec as (_ & name & [start stop] & Hl & Hentry).
  apply make_group_ids_bounds in Hl as [Hl|(_ & Hs & He & _)]; [done|].
  destruct (decide (stop - start = 1)%nat) as [Hd|Hd].
  - rewrite group_entry_scalar in Hentry by done.
    destruct (lookup_lt_is_Some_2 x start) as [v Hv]; [lia|].
    by rewrite Hv in Hentry.
  - by rewrite group_entry_slice in Hentry.
Qed.

End GroupTable.

(** ** Around the solver *)

Section AroundSolver.
Context {F : Type} `{PyFloat F}.
Implicit Types (st : @state F) (p : @problem F) (s : @solver F).

Ltac run_setup :=
  unfold __solve__, _setHistory, when, emit, os_path_isfile, os_remove;
  unfold mbind, M_bind, mret, M_ret, lift, gets, modify, raise, blocked.

(** X6.  Asking for both levels of parallelism, [POA] and ['pgc'] in any
    mix of cases, is refused first of all: [NotImplementedError], whatever
    the problem, with nothing touched. *)
Theorem both_parallel_levels_refused s p st :
  poa s = true → lower (sens_mode s) = "pgc" →
  ∃ msg, __solve__ s p st = (Raise (NotImplementedError msg), st).
Proof.
  intros Hpoa Hpgc. run_setup. rewrite Hpoa.
  rewrite bool_decide_eq_true_2 by done. simpl. by eexists.
Qed.

(** X7.  Asking for one level of parallelism where MPI cannot be imported
    prints the notice and then raises [UnboundLocalError] for [MPI]: the
    history is not set up and nothing else is done. *)
Theorem parallel_without_mpi s p st :
  poa s || bool_decide (lower (sens_mode s) = "pgc") = true →
  poa s && bool_decide (lower (sens_mode s) = "pgc") = false →
  mpi4py s = None →
  ∃ notice,
    __solve__ s p st
      = (Raise (UnboundLocalError "MPI"), add_event (EvPrint notice) st).
Proof.
  intros Hone Hboth Hmpi. run_setup.
  rewrite Hboth, Hone, Hmpi. simpl. by eexists.
Qed.


(** The loops that store the solution take the first values of the
    buffer, and raise [IndexError] when the buffer has too few. *)
Lemma solution_values_seq {A : Type} a k (values : list A) :
  (a + k ≤ length values)%nat →
  solution_values (seq a k) values = Ok (take k (drop a values)).
Proof.
  revert a. induction k as [|k IH]; intros a Hk; simpl.
  - by rewrite take_0.
  - destruct (lookup_lt_is_Some_2 values a) as [v Hv]; [lia|].
    unfold getitem. rewrite Hv. simpl. rewrite IH by lia. simpl.
    rewrite (drop_S _ _ _ Hv). done.
Qed.

Lemma solution_values_short {A : Type} a k (values : list A) :
  (a ≤ length values)%nat → (length values < a + k)%nat →
  solution_values (seq a k) values = Raise IndexError.
Proof.
  revert a. induction k as [|k IH]; intros a Ha Hk; simpl.
  - lia.
  - unfold getitem. destruct (values !! a) as [v|] eqn:Hv; simpl; [|done].
    apply lookup_lt_Some in Hv. by rewrite IH by lia.
Qed.

Lemma store_results_unknown_inform s p r gg st :
  Init.informs !! r_inform r = None →
  store_results s p r gg st = (Raise (KeyError (pretty (r_inform r))), st).
Proof.
  intros Hi. unfold store_results, _on_getInform.
  unfold mbind, M_bind, lift. by rewrite Hi.
Qed.

Lemma store_results_not_stored s p r gg st text :
  Init.informs !! r_inform r = Some text → store_sol s = false →
  store_results s p r gg st = (Ok (r_ff r, r_xx r, (r_inform r, text)), st).
Proof.
  intros Hi Hs. unfold store_results, _on_getInform, when.
  unfold mbind, M_bind, lift. by rewrite Hi, Hs.
Qed.

Lemma store_results_stored s p r gg st text :
  Init.informs !! r_inform r = Some text → store_sol s = true →
  (length (variables p) ≤ length (r_xx r))%nat →
  (length (objectives p) ≤ length (r_ff r))%nat →
  (length (constraints p) ≤ length gg)%nat →
  store_results s p r gg st
    = (Ok (r_ff r, r_xx r, (r_inform r, text)),
       add_event (stored_solution p r gg text) st).
Proof.
  intros Hi Hs Hx Hf Hg. unfold store_results, _on_getInform, when, emit.
  unfold mbind, M_bind, mret, M_ret, lift, modify. rewrite Hi, Hs.
  rewrite !solution_values_seq by (simpl; lia). rewrite !drop_0.
  unfold stored_solution.
  destruct (0 <? length (constraints p))%nat eqn:Hm; [done|].
  apply Nat.ltb_ge in Hm.
  assert (length (constraints p) = 0%nat) as -> by lia. done.
Qed.

Lemma store_results_short s p r gg st text :
  Init.informs !! r_inform r = Some text → store_sol s = true →
  (length (r_xx r) < length (variables p))%nat ∨
  (length (r_ff r) < length (objectives p))%nat ∨
  (length gg < length (constraints p))%nat →
  store_results s p r gg st = (Raise IndexError, st).
Proof.
  intros Hi Hs Hshort. unfold store_results, _on_getInform, when, emit.
  unfold mbind, M_bind, mret, M_ret, lift, modify. rewrite Hi, Hs.
  destruct (decide (length (r_xx r) < length (variables p))%nat) as [Hx|Hx];
    [by rewrite solution_values_short by (simpl; lia)|].
  rewrite solution_values_seq by (simpl; lia).
  destruct (decide (length (r_ff r) < length (objectives p))%nat) as [Hf|Hf];
    [by rewrite solution_values_short by (simpl; lia)|].
  rewrite solution_values_seq by (simpl; lia).
  assert (length gg < length (constraints p))%nat as Hg by lia.
  assert ((0 <? length (constraints p))%nat = true) as ->
    by (apply Nat.ltb_lt; lia).
  by rewrite solution_values_short by (simpl; lia).
Qed.

Local Arguments store_results : simpl never.

(** The point that the set-up builds has one entry for each variable of
    kind ['c'], which is fewer than one for each variable as soon as a
    variable is of another kind. *)
Lemma variables_handling_Ok_length (vars : list (@variable F)) xl xu xx :
  variables_handling vars [] [] [] = Ok (xl, xu, xx) →
  length xx = length (filter continuous vars).
Proof.
  intros Hvars.
  assert (∀ v, v ∈ vars → ¬ noncontinuous v) as Hc.
  { intros v Hv Hn.
    destruct (variables_handling_noncontinuous vars [] [] [] v Hv Hn)
      as [E|E]; congruence. }
  rewrite variables_handling_acc in Hvars by done.
  injection Hvars as _ _ <-. by rewrite length_fmap.
Qed.

Lemma filter_continuous_length (vars : list (@variable F)) :
  (length (filter continuous vars) ≤ length vars)%nat ∧
  (length (filter continuous vars) = length vars ↔ Forall continuous vars).
Proof.
  induction vars as [|w vars [IHle IH]]; simpl.
  - split; [done|]. split; [constructor|done].
  - rewrite filter_cons.
    destruct (decide (continuous w)) as [Hw|Hw]; simpl.
    + split; [lia|]. rewrite Forall_cons. split.
      * intros [= Hl]. split; [done|]. by apply IH.
      * intros [_ Hall]. f_equal. by apply IH.
    + split; [lia|]. split.
      * intros Hl. lia.
      * intros Hall. by apply Forall_cons in Hall as [? _].
Qed.

(** What is left of a serial solve without hot start when the solver has
    returned and the last evaluation of the user model has returned too:
    the storing of the results. *)
Lemma solve_after_solver s p st xl xu xx equatn linear r f_end g_end
    fail_end :
  poa s = false → lower (sens_mode s) ≠ "pgc" →
  hot_start (history s) = None →
  variables_handling (variables p) [] [] [] = Ok (xl, xu, xx) →
  constraints_handling (constraints p) = Ok (equatn, linear) →
  let c := mkClosure false 0
             (if use_groups p then make_group_ids (vargroups p) 0 ∅ else ∅) in
  let args := mkBackendArgs (length (variables p)) xx xl xu
                (length (constraints p)) equatn linear in
  let entered :=
    algencan s args (evalfc s p c) (evalgjac s p c) (solver_entry s st) in
  entered.1 = Ok r →
  obj_fun p (XFlat (r_xx r)) = Ok (f_end, g_end, fail_end) →
  ∃ st3,
    __solve__ s p st = store_results s p r g_end st3 ∧
    trace st3 = trace entered.2 ++ closing_events s (sto_hst entered.2) r.
Proof.
  intros Hpoa Hpgc Hhot Hvars Hcons c args entered Hr Hy.
  subst entered. revert Hr.
  unfold solver_entry, closing_events.
  run_setup. unfold close_history, log_close, call_obj_fun, when, emit.
  unfold mbind, M_bind, mret, M_ret, lift, gets, modify.
  rewrite Hpoa, Hhot, Hvars, Hcons.
  rewrite bool_decide_eq_false_2 by done. simpl.
  fold c. fold args.
  destruct (0 <=? iprint s)%Z eqn:Hi;
    [destruct (fs st !! ifile s) eqn:Hf|]; repeat (simpl; rewrite ?Hf);
    match goal with
    | |- context [algencan s args ?fc ?gj ?st1] =>
        destruct (algencan s args fc gj st1) as [[r'|e'|] st2]
    end; simpl; try done;
    intros [= ->];
    destruct (sto_hst st2), (0 <? iprint s)%Z; simpl; rewrite Hy; simpl;
    (eexists; split; [reflexivity|]); simpl; by rewrite <- ?app_assoc.
Qed.

(** X8.  A serial solve without hot start whose set-up passes enters the
    solver once, with the buffers of the set-up, in a state where an output
    file left by an earlier run has been removed (when output is on) and
    no other file has been touched.  An exception of the solver leaves
    [__solve__] as it is, with nothing closed.  When the solver returns,
    having written into the buffers it was given, [__solve__] closes the
    log if it records and evaluates the user model once more at the final
    point, passed as a flat vector whether or not the problem has groups.
    When that evaluation returns, the inform code of the solver is looked
    up: a code that is not in the table of [__init__] ends the solve with
    [KeyError].  Otherwise, when the solution is not to be stored,
    [__solve__] returns the objective values, the point and the inform code
    with its text; when it is to be stored, [__solve__] returns the same
    after storing one value for each variable, objective and constraint,
    provided that every variable is of kind ['c'] and the last evaluation
    gave a value for each constraint, and raises [IndexError], with nothing
    stored, if a variable is of another kind, which the point has no entry
    for, or a constraint value is missing. *)
Theorem serial_solve_around_solver s p st xl xu xx equatn linear :
  poa s = false → lower (sens_mode s) ≠ "pgc" →
  hot_start (history s) = None →
  variables_handling (variables p) [] [] [] = Ok (xl, xu, xx) →
  constraints_handling (constraints p) = Ok (equatn, linear) →
  let c := mkClosure false 0
             (if use_groups p then make_group_ids (vargroups p) 0 ∅ else ∅) in
  let args := mkBackendArgs (length (variables p)) xx xl xu
                (length (constraints p)) equatn linear in
  let entered :=
    algencan s args (evalfc s p c) (evalgjac s p c) (solver_entry s st) in
  trace (solver_entry s st) = trace st ++ [EvAlgencan] ∧
  ((0 <= iprint s)%Z → fs (solver_entry s st) !! ifile s = None) ∧
  (∀ path, path ≠ ifile s → fs (solver_entry s st) !! path = fs st !! path) ∧
  (∀ e, entered.1 = Raise e → __solve__ s p st = (Raise e, entered.2)) ∧
  (∀ r f_end g_end fail_end,
     entered.1 = Ok r →
     length (r_xx r) = length xx →
     length (r_ff r) = length (objectives p) →
     obj_fun p (XFlat (r_xx r)) = Ok (f_end, g_end, fail_end) →
     let closed := trace entered.2 ++ closing_events s (sto_hst entered.2) r in
     (Init.informs !! r_inform r = None →
      (__solve__ s p st).1 = Raise (KeyError (pretty (r_inform r))) ∧
      trace (__solve__ s p st).2 = closed) ∧
     (∀ text, Init.informs !! r_inform r = Some text →
        (store_sol s = false →
         (__solve__ s p st).1 = Ok (r_ff r, r_xx r, (r_inform r, text)) ∧
         trace (__solve__ s p st).2 = closed) ∧
        (store_sol s = true →
         Forall continuous (variables p) →
         (length (constraints p) ≤ length g_end)%nat →
         (__solve__ s p st).1 = Ok (r_ff r, r_xx r, (r_inform r, text)) ∧
         trace (__solve__ s p st).2
           = closed ++ [stored_solution p r g_end text]) ∧
        (store_sol s = true →
         ¬ Forall continuous (variables p) ∨
         (length g_end < length (constraints p))%nat →
         (__solve__ s p st).1 = Raise IndexError ∧
         trace (__solve__ s p st).2 = closed))).
Proof.
  intros Hpoa Hpgc Hhot Hvars Hcons c args entered.
  assert (solver_entry s st
          = add_event EvAlgencan
              (if (0 <=? iprint s)%Z then
                 match fs st !! ifile s with
                 | Some _ =>
                     set_fs (delete (ifile s) (fs st))
                       (set_h_start false (set_sto_hst (store_hst (history s)) st))
                 | None =>
                     set_h_start false (set_sto_hst (store_hst (history s)) st)
                 end
               else set_h_start false (set_sto_hst (store_hst (history s)) st)))
    as Hentry.
  { unfold solver_entry, _setHistory.
    unfold mbind, M_bind, mret, M_ret, modify. by rewrite Hhot. }
  split_and!.
  - rewrite Hentry. simpl.
    destruct (0 <=? iprint s)%Z; [destruct (fs st !! ifile s)|]; done.
  - intros Hi. apply Z.leb_le in Hi. rewrite Hentry, Hi. simpl.
    destruct (fs st !! ifile s) eqn:Hf; simpl; [|done].
    by rewrite lookup_delete_eq.
  - intros path Hne. rewrite Hentry. simpl.
    destruct (0 <=? iprint s)%Z; [destruct (fs st !! ifile s)|]; simpl;
      try done.
    by rewrite lookup_delete_ne.
  - intros e He. subst entered. rewrite Hentry in He |- *.
    run_setup. rewrite Hpoa, Hhot, Hvars, Hcons.
    rewrite bool_decide_eq_false_2 by done. simpl.
    fold c. fold args.
    destruct (0 <=? iprint s)%Z;
      [destruct (fs st !! ifile s) eqn:Hf|]; repeat (simpl; rewrite ?Hf);
      simpl in He;
      match goal with
      | |- context [algencan s args ?fc ?gj ?st1] =>
          destruct (algencan s args fc gj st1) as [[r|e'|] st2]
      end; simpl in *; congruence.
  - intros r f_end g_end fail_end Hr Hxx Hff Hy closed.
    destruct (solve_after_solver s p st xl xu xx equatn linear r f_end g_end
                fail_end Hpoa Hpgc Hhot Hvars Hcons Hr Hy)
      as (st3 & -> & Hclosed).
    fold entered in Hclosed. fold closed in Hclosed.
    apply variables_handling_Ok_length in Hvars as Hlen.
    destruct (filter_continuous_length (variables p)) as [Hle Hall].
    split.
    + intros Hi. by rewrite store_results_unknown_inform.
    + intros text Hi. split_and!.
      * intros Hs. by rewrite (store_results_not_stored _ _ _ _ _ text).
      * intros Hs Hcont Hg. apply Hall in Hcont.
        rewrite (store_results_stored _ _ _ _ _ text) by (done || lia).
        simpl. by rewrite Hclosed.
      * intros Hs Hshort.
        rewrite (store_results_short _ _ _ _ _ text); [done..|].
        destruct Hshort as [Hcont|Hg]; [left|by right; right].
        assert (length (filter continuous (variables p))
                ≠ length (variables p)) by (intros E; by apply Hall in E).
        lia.
Qed.

End AroundSolver.

(** ** A live call of [evalfc] *)

Section LiveValues.
Context {F : Type} `{PyFloat F}.
Implicit Types (st : @state F) (v : @num F) (g gg : list (@num F)).



(** X10.  A built-in [complex] objective makes a live call of [evalfc] on
    the root raise [AttributeError]: the coercion asks it for [astype],
    which only [numpy] values have. *)
Theorem evalfc_builtin_complex_objective s p c n x f m g flag st xn ff gg
    fail :
  myrank c = 0%nat → h_start st = false →
  group_view p (group_ids c) x = Ok xn →
  obj_fun p xn = Ok (ff, gg, fail) →
  builtin_complex ff →
  (evalfc s p c n x f m g flag st).1 = Raise (AttributeError "astype").
Proof.
  intros Hr Hs Hv Hobj Hff.
  unfold evalfc. run_callback.
  rewrite Hv, Hr. simpl.
  destruct (0 <=? iprint s)%Z, (pll c);
    repeat (simpl; rewrite ?Hs, ?Hobj);
    destruct (sto_hst st); simpl;
    by rewrite (coerce_builtin ff Hff).
Qed.

Lemma assign_constraints_short a k gg g :
  (a ≤ length gg)%nat → (length gg < a + k)%nat → (a + k ≤ length g)%nat →
  (∀ v, v ∈ gg → ¬ builtin_complex v) →
  assign_constraints (seq a k) (Some gg) g = Raise IndexError.
Proof.
  revert a g. induction k as [|k IH]; intros a g Ha Hk Hg Hgg; simpl.
  - lia.
  - unfold getitem. destruct (gg !! a) as [v|] eqn:Hv; simpl; [|done].
    destruct (coerce_not_builtin v) as [v' ->];
      [apply Hgg; by eapply list_elem_of_lookup_2|].
    simpl. rewrite setitem_Ok by lia. simpl.
    apply lookup_lt_Some in Hv.
    apply IH; rewrite ?length_insert; try lia. done.
Qed.

(** X11.  A user model that returns fewer constraint values than the
    problem has constraints makes a live call of [evalfc] on the root
    raise [IndexError]. *)
Theorem evalfc_too_few_constraints s p c n x f m g flag st xn ff gg fail :
  myrank c = 0%nat → h_start st = false →
  group_view p (group_ids c) x = Ok xn →
  obj_fun p xn = Ok (ff, gg, fail) →
  ¬ builtin_complex ff → (∀ v, v ∈ gg → ¬ builtin_complex v) →
  (length gg < length (constraints p))%nat →
  (length (constraints p) ≤ length g)%nat →
  (evalfc s p c n x f m g flag st).1 = Raise IndexError.
Proof.
  intros Hr Hs Hv Hobj Hff Hgg Hshort Hg.
  assert (assign_constraints (seq 0 (length (constraints p))) (Some gg) g
          = Raise IndexError) as Hloop.
  { apply assign_constraints_short; (done || lia). }
  destruct (coerce_not_builtin ff Hff) as [f' Hf'].
  unfold evalfc. run_callback.
  rewrite Hv, Hr. simpl.
  destruct (0 <=? iprint s)%Z, (pll c);
    repeat (simpl; rewrite ?Hs, ?Hobj);
    destruct (sto_hst st); simpl;
    rewrite Hf'; simpl; by rewrite Hloop.
Qed.

Ltac filter_events :=
  unfold evaluations, replay_events; rewrite ?List.filter_app; simpl;
  rewrite ?app_nil_r; try done.

(** X12.  When the log that is replayed has come to its end, the call of
    [evalfc] that finds this out on the root switches the replay off, and
    goes on as a live call: it ends as the same call made live would, with
    the same evaluations. *)
Theorem evalfc_falls_back_when_exhausted s p c n x f m g flag st xn vals
    h' :
  myrank c = 0%nat → h_start st = true →
  group_view p (group_ids c) x = Ok xn →
  History_read ["obj"; "con"; "fail"] (hos_file st) = ((vals, true), h') →
  (evalfc s p c n x f m g flag st).1
    = (evalfc s p c n x f m g flag (set_h_start false st)).1 ∧
  h_start (evalfc s p c n x f m g flag st).2 = false ∧
  evaluations (trace (evalfc s p c n x f m g flag st).2)
    = evaluations
        (trace (evalfc s p c n x f m g flag (set_h_start false st)).2).
Proof.
  intros Hr Hs Hv Hread.
  unfold evalfc. run_callback. rewrite Hr, Hv. simpl.
  destruct (0 <=? iprint s)%Z, (pll c);
    repeat (simpl; rewrite ?Hs, ?Hread);
    destruct (obj_fun p xn) as [[[ff gg] fail]|e|]; simpl;
    try destruct (sto_hst st); simpl;
    try destruct (coerce ff); simpl;
    try destruct (assign_constraints _ _ _); simpl;
    split_and!; filter_events.
Qed.

(** X13.  A live solve stays live: a call of [evalfc] on the root, or a call
    of [evalgjac] on any rank, that starts with the replay off ends with
    the replay off, has left the log that would be replayed alone and its
    cursor where it was. *)
Theorem live_solve_stays_live s p c st n x f m g flag jfval jcfun jcvar jcval
    jcnnz :
  h_start st = false →
  (myrank c = 0%nat →
   h_start (evalfc s p c n x f m g flag st).2 = false ∧
   hos_file (evalfc s p c n x f m g flag st).2 = hos_file st ∧
   replay_events (trace (evalfc s p c n x f m g flag st).2)
     = replay_events (trace st)) ∧
  (h_start (evalgjac s p c n x jfval m jcfun jcvar jcval jcnnz flag st).2
     = false ∧
   hos_file (evalgjac s p c n x jfval m jcfun jcvar jcval jcnnz flag st).2
     = hos_file st ∧
   replay_events
     (trace (evalgjac s p c n x jfval m jcfun jcvar jcval jcnnz flag st).2)
     = replay_events (trace st)).
Proof.
  intros Hs. split.
  - intros Hr. unfold evalfc. run_callback. rewrite Hr.
    destruct (group_view p (group_ids c) x) as [xn|e|]; simpl; try done.
    destruct (0 <=? iprint s)%Z, (pll c);
      repeat (simpl; rewrite ?Hs);
      destruct (obj_fun p xn) as [[[ff gg] fail]|e|]; simpl;
      try destruct (sto_hst st); simpl;
      try destruct (coerce ff); simpl;
      try destruct (assign_constraints _ _ _); simpl;
      split_and!; filter_events.
  - unfold evalgjac. run_callback.
    repeat (simpl; rewrite ?Hs).
    destruct (obj_fun p (XFlat x)) as [[[ff gg] fail]|e|]; simpl;
      [|by split_and!; filter_events..].
    destruct (getGrad s x (group_ids c) [ff] gg) as [[dff dgg]|e|]; simpl;
      [|by split_and!; filter_events..].
    destruct (sto_hst st && _); simpl;
      destruct (assign_objective_gradient _ _ _); simpl;
      try destruct (jac_rows _ _ _ _) as [[[[? ?] ?] ?]| |]; simpl;
      split_and!; filter_events.
Qed.

End LiveValues.

(** ** A live call of [evalgjac] *)

Section LiveGradients.
Context {F : Type} `{PyFloat F}.
Implicit Types (st : @state F) (d : @matrix F) (jfval : list (@num F)).

(** X14.  A live call of [evalgjac] begins by calling the user model, and
    passes it the flat vector [x] whether or not the problem has groups:
    only [evalfc] builds the grouped view. *)
Theorem evalgjac_calls_model_flat s p c n x jfval m jcfun jcvar jcval jcnnz
    flag st :
  h_start st = false →
  ∃ rest,
    trace (evalgjac s p c n x jfval m jcfun jcvar jcval jcnnz flag st).2
      = trace st ++ EvObjFun (XFlat x) :: rest.
Proof.
  intros Hs. unfold evalgjac. run_callback.
  repeat (simpl; rewrite ?Hs).
  destruct (obj_fun p (XFlat x)) as [[[ff gg] fail]|e|]; simpl;
    [|by eexists..].
  destruct (getGrad s x (group_ids c) [ff] gg) as [[dff dgg]|e|]; simpl;
    [|eexists; rewrite <- ?app_assoc; simpl; reflexivity..].
  destruct (sto_hst st && _); simpl;
    destruct (assign_objective_gradient _ _ _); simpl;
    try destruct (jac_rows _ _ _ _) as [[[[? ?] ?] ?]| |]; simpl;
    eexists; rewrite <- ?app_assoc; simpl; reflexivity.
Qed.

(** The loop over the variables writes the slots it runs over with the
    first row of the gradient, and no other slot. *)
Lemma assign_objective_gradient_seq a k (dff : option matrix) jfval jfval' :
  assign_objective_gradient (seq a k) dff jfval = Ok jfval' →
  length jfval' = length jfval ∧
  (∀ i, (a ≤ i < a + k)%nat →
        ∃ d v, dff = Some d ∧ getitem2 d 0 i = Ok v ∧ jfval' !! i = Some v) ∧
  (∀ i, (i < a ∨ a + k ≤ i)%nat → jfval' !! i = jfval !! i).
Proof.
  revert a jfval. induction k as [|k IH]; intros a jfval; simpl.
  - intros [= <-]. split_and!; try done. intros i Hi. lia.
  - destruct dff as [d|]; simpl; [|done].
    destruct (getitem2 d 0 a) as [v| |] eqn:Hget; simpl; try done.
    destruct (setitem jfval a v) as [jfval1| |] eqn:Hset; simpl; try done.
    apply setitem_Ok_inv in Hset as [Ha ->].
    intros Hrec. apply IH in Hrec as (Hlen & Hnew & Hold).
    rewrite length_insert in Hlen. split_and!; [done| |].
    + intros i Hi. destruct (decide (i = a)) as [->|Hne].
      * exists d, v. split_and!; [done|done|].
        rewrite Hold by lia. by rewrite list_lookup_insert_eq.
      * apply Hnew. lia.
    + intros i Hi. rewrite Hold by lia.
      rewrite list_lookup_insert_ne; [done|lia].
Qed.

(** X15.  A call of [evalgjac] that returns gives back buffers of the
    lengths it was given, which were therefore long enough for the dense
    Jacobian; the first slots of [jfval] hold the first row of the objective
    gradient as the gradient routine returned it, without coercion, the
    other slots of [jfval] are as they were, and the flag is the failure
    flag of the user model. *)
Theorem evalgjac_objective_gradient s p c n x jfval m jcfun jcvar jcval jcnnz
    flag st jfval' jcfun' jcvar' jcval' jcnnz' fail st' :
  evalgjac s p c n x jfval m jcfun jcvar jcval jcnnz flag st
    = (Ok (jfval', jcfun', jcvar', jcval', jcnnz', fail), st') →
  ∃ ff gg dff dgg,
    obj_fun p (XFlat x) = Ok (ff, gg, fail) ∧
    getGrad s x (group_ids c) [ff] gg = Ok (dff, dgg) ∧
    length jfval' = length jfval ∧ length jcfun' = length jcfun ∧
    length jcvar' = length jcvar ∧ length jcval' = length jcval ∧
    (length (variables p) ≤ length jfval)%nat ∧
    (length (constraints p) * length (variables p) ≤ length jcfun)%nat ∧
    (length (constraints p) * length (variables p) ≤ length jcvar)%nat ∧
    (length (constraints p) * length (variables p) ≤ length jcval)%nat ∧
    (∀ i, (i < length (variables p))%nat →
          ∃ v, getitem2 dff 0 i = Ok v ∧ jfval' !! i = Some v) ∧
    (∀ i, (length (variables p) ≤ i)%nat → jfval' !! i = jfval !! i).
Proof.
  intros Hrun. unfold evalgjac in Hrun.
  invert_run Hrun.
  unfold mret, M_ret in Hrun. simplify_eq.
  match goal with
  | Hf : lift (get_local "fail" ?o) _ = _ |- _ =>
      apply lift_Ok_inv in Hf as [Hf _]; destruct o as [fl|]; [|done];
      injection Hf as ->
  end.
  match goal with
  | Hj : lift (jac_rows _ _ _ _) _ = _ |- _ =>
      apply lift_Ok_inv in Hj as [Hj _];
      apply jac_rows_Ok in Hj as (_ & L1 & L2 & L4 & Hjac & _)
  end.
  assert ((length (constraints p) * length (variables p) ≤ length jcfun)%nat ∧
          (length (constraints p) * length (variables p) ≤ length jcvar)%nat ∧
          (length (constraints p) * length (variables p) ≤ length jcval)%nat)
    as (B1 & B2 & B4).
  { destruct (length (constraints p)) as [|jj] eqn:Hm; [simpl; lia|].
    destruct (length (variables p)) as [|ii] eqn:Hn; [lia|].
    destruct (Hjac jj ii) as (E1 & E2 & d & v & _ & _ & E4); [lia|lia|].
    apply lookup_lt_Some in E1, E2, E4. simpl in *. nia. }
  match goal with
  | Ha : lift (assign_objective_gradient _ _ _) _ = _ |- _ =>
      apply lift_Ok_inv in Ha as [Ha _];
      apply assign_objective_gradient_seq in Ha as (Lf & Hnew & Hold)
  end.
  match goal with
  | Hl : (if negb ?b then _ else _) _ = _ |- _ =>
      destruct b; simpl in Hl; [by unfold mret, M_ret in Hl|];
      rename Hl into Hlive
  end.
  invert_run Hlive. unfold mret, M_ret in Hlive. simplify_eq.
  match goal with
  | Hc : call_obj_fun _ _ _ = _ |- _ =>
      unfold call_obj_fun in Hc;
      apply bind_Ok_inv in Hc as (? & ? & _ & Hc);
      apply lift_Ok_inv in Hc as [Hobj _]
  end.
  match goal with
  | Hg : lift (getGrad _ _ _ _ _) _ = _ |- _ =>
      apply lift_Ok_inv in Hg as [Hgrad _]
  end.
  eexists _, _, _, _.
  split_and!;
    [exact Hobj|exact Hgrad|done|done|done|done| |done|done|done| |].
  - destruct (length (variables p)) as [|k] eqn:Hn; [lia|].
    destruct (Hnew k) as (d & v & _ & _ & Hv); [lia|].
    apply lookup_lt_Some in Hv. lia.
  - intros i Hi. destruct (Hnew i) as (d & v & [= <-] & Hd & Hv); [lia|].
    by exists v.
  - intros i Hi. apply Hold. lia.
Qed.

(** X16.  On the root of a live solve that records, [evalgjac] writes to
    the log the two gradients that the gradient routine returned, the
    objective gradient first, and nothing else. *)
Theorem evalgjac_logs_gradients s p c n x jfval m jcfun jcvar jcval jcnnz
    flag st ff gg fail dff dgg :
  myrank c = 0%nat → h_start st = false → sto_hst st = true →
  obj_fun p (XFlat x) = Ok (ff, gg, fail) →
  getGrad s x (group_ids c) [ff] gg = Ok (dff, dgg) →
  log_writes
    (trace (evalgjac s p c n x jfval m jcfun jcvar jcval jcnnz flag st).2)
    = log_writes (trace st) ++ [(PMat dff, "grad_obj"); (PMat dgg, "grad_con")].
Proof.
  intros Hr Hs Hsto Hobj Hgrad.
  unfold evalgjac. run_callback. rewrite Hr.
  repeat (simpl; rewrite ?Hs, ?Hobj, ?Hgrad, ?Hsto).
  destruct (assign_objective_gradient _ _ _); simpl;
    try destruct (jac_rows _ _ _ _) as [[[[? ?] ?] ?]| |]; simpl;
    unfold log_writes; rewrite !omap_app; simpl;
    by rewrite ?app_nil_r, <- ?app_assoc.
Qed.

End LiveGradients.

(** ** The end of the solve *)

Section EndOfSolve.
Context {F : Type} `{PyFloat F}.
Implicit Types (st : @state F).

Ltac run_close :=
  unfold close_history, when, log_close, hos_close, emit;
  unfold mbind, M_bind, mret, M_ret, gets, modify.

(** X17.  Off the root, without recording, or without a temporary log, the
    end of the solve cannot fail and touches no file; it closes the log on
    a recording root and does nothing anywhere else. *)
Theorem close_history_without_promotion rank tmp_file st :
  rank ≠ 0%nat ∨ sto_hst st = false ∨ tmp_file = false →
  (close_history rank tmp_file st).1 = Ok tt ∧
  fs (close_history rank tmp_file st).2 = fs st ∧
  trace (close_history rank tmp_file st).2
    = trace st ++ (if (rank =? 0)%nat && sto_hst st then [EvLogClose] else []).
Proof.
  intros Hc. run_close.
  destruct (rank =? 0)%nat eqn:Hr; simpl; [|by rewrite app_nil_r].
  destruct (sto_hst st) eqn:Hs; simpl; [|by rewrite app_nil_r].
  destruct tmp_file; simpl; [|done].
  apply Nat.eqb_eq in Hr. by destruct Hc as [?|[?|?]].
Qed.

(** X18.  When the index of the replayed log is not on disk, the promotion
    stops at its first step with [OSError]: no file is touched and the
    temporary log stays under its temporary names. *)
Theorem promotion_without_index st :
  let name := filename (hos_file st) in
  sto_hst st = true →
  fs st !! (name +:+ ".cue") = None →
  (close_history 0 true st).1 = Raise (OSError (name +:+ ".cue")) ∧
  fs (close_history 0 true st).2 = fs st.
Proof.
  intros name Hs Hcue. run_close. unfold run, promotion, os_remove.
  unfold mbind, M_bind, gets, raise. simpl. rewrite Hs. simpl.
  fold name. by rewrite Hcue.
Qed.

(** X19.  When the replayed log is on disk and the index of the temporary
    log is not, the promotion removes the replayed log and then stops with
    [OSError]: no log is left under the name of the log. *)
Theorem promotion_without_temporary_log st cue bin :
  let name := filename (hos_file st) in
  sto_hst st = true →
  canonical_log name (fs st) = Some (cue, bin) →
  fs st !! (name +:+ "_tmp.cue") = None →
  (close_history 0 true st).1 = Raise (OSError (name +:+ "_tmp.cue")) ∧
  fs (close_history 0 true st).2
    = delete (name +:+ ".bin") (delete (name +:+ ".cue") (fs st)) ∧
  canonical_log name (fs (close_history 0 true st).2) = None.
Proof.
  intros name Hs. unfold canonical_log at 1.
  destruct (fs st !! (name +:+ ".cue")) as [c1|] eqn:H1; [|done].
  destruct (fs st !! (name +:+ ".bin")) as [c2|] eqn:H2; [|done].
  intros _ H3.
  assert (name +:+ ".cue" ≠ name +:+ ".bin") by (by apply append_suffix_ne).
  assert (name +:+ ".cue" ≠ name +:+ "_tmp.cue") by (by apply append_suffix_ne).
  assert (name +:+ ".bin" ≠ name +:+ "_tmp.cue") by (by apply append_suffix_ne).
  run_close. unfold run, promotion, os_remove, os_rename.
  unfold mbind, M_bind, gets, modify, raise. simpl. rewrite Hs. simpl.
  fold name. rewrite H1. simpl.
  rewrite lookup_delete_ne by done. rewrite H2. simpl.
  rewrite !lookup_delete_ne by done. rewrite H3. simpl.
  split_and!; [done|done|].
  unfold canonical_log. by rewrite lookup_delete_ne, lookup_delete_eq.
Qed.

(** X20.  A promotion that goes through touches the four files of the two
    logs and no other. *)
Theorem promotion_keeps_other_files st cue bin cue' bin' path :
  let name := filename (hos_file st) in
  sto_hst st = true →
  canonical_log name (fs st) = Some (cue, bin) →
  temporary_log name (fs st) = Some (cue', bin') →
  path ≠ name +:+ ".cue" → path ≠ name +:+ ".bin" →
  path ≠ name +:+ "_tmp.cue" → path ≠ name +:+ "_tmp.bin" →
  fs (close_history 0 true st).2 !! path = fs st !! path.
Proof.
  intros name Hs. unfold canonical_log, temporary_log.
  destruct (fs st !! (name +:+ ".cue")) as [c1|] eqn:H1; [|done].
  destruct (fs st !! (name +:+ ".bin")) as [c2|] eqn:H2; [|done].
  destruct (fs st !! (name +:+ "_tmp.cue")) as [c3|] eqn:H3; [|done].
  destruct (fs st !! (name +:+ "_tmp.bin")) as [c4|] eqn:H4; [|done].
  intros _ _ N1 N2 N3 N4.
  destruct (promotion_steps name
              (add_event EvHosClose (add_event EvLogClose st))
              _ _ _ _ H1 H2 H3 H4) as (_ & _ & _ & E4).
  assert (close_history 0 true st
            = run (promotion name)
                (add_event EvHosClose (add_event EvLogClose st))) as ->.
  { run_close. simpl. by rewrite Hs. }
  rewrite E4. simpl.
  rewrite lookup_insert_ne, lookup_delete_ne by done.
  rewrite lookup_insert_ne, lookup_delete_ne by done.
  by rewrite !lookup_delete_ne.
Qed.

End EndOfSolve.

(** ** The model of [examples/rosenbrock.py] *)

Section Rosenbrock.
Import Samples.

Local Open Scope Z_scope.

(** X21.  On a vector of at least two integers, [objfunc] returns no
    constraint and no failure, and an objective that is never negative and
    is zero at the point (1, 1) only: the optimum that the example
    announces. *)
Theorem rosenbrock_objfunc_minimum (x0 x1 : Z) (rest : list Z) :
  let f := 100 * (x1 - x0 ^ 2) ^ 2 + (1 - x0) ^ 2 in
  rosenbrock_objfunc (XFlat (x0 :: x1 :: rest)) = Ok (Real f, [], 0) ∧
  0 <= f ∧ (f = 0 ↔ x0 = 1 ∧ x1 = 1).
Proof.
  intros f. subst f.
  pose proof (Z.square_nonneg (x1 - x0 * x0)) as Ha.
  pose proof (Z.square_nonneg (1 - x0)) as Hb.
  split_and!; [reflexivity|rewrite !Z.pow_2_r; lia|].
  rewrite !Z.pow_2_r. split.
  - intros Hf.
    assert ((1 - x0) * (1 - x0) = 0) as Hb0 by lia.
    assert ((x1 - x0 * x0) * (x1 - x0 * x0) = 0) as Ha0 by lia.
    apply Z.mul_eq_0 in Hb0, Ha0.
    assert (x0 = 1) as -> by lia. split; [done|lia].
  - intros [-> ->]. reflexivity.
Qed.

(** X22.  On a vector of fewer than two entries, [objfunc] raises
    [IndexError]. *)
Theorem rosenbrock_objfunc_short (x : list Z) :
  (length x < 2)%nat → rosenbrock_objfunc (XFlat x) = Raise IndexError.
Proof.
  destruct x as [|x0 [|x1 rest]]; simpl; [done|done|lia].
Qed.

End Rosenbrock.

(** ** The properties above on the sample inputs *)

Section SampleRuns.
Import Samples MoreSamples.

Lemma variables_handling_flattens_sample :
  variables_handling (variables rosenbrock) [] [] []
    = Ok ([-10; -10]%Z, [10; 10]%Z, [-3; -4]%Z) ∧
  (length (filter continuous (variables rosenbrock))
     = length (variables rosenbrock)
   ↔ Forall continuous (variables rosenbrock)).
Proof.
  apply (variables_handling_flattens (variables rosenbrock)).
  intros v Hv [Hn|Hn];
    apply elem_of_cons in Hv as [->|Hv];
    try (apply list_elem_of_singleton in Hv as ->); discriminate Hn.
Defined.

Lemma variables_handling_first_offender_sample :
  variables_handling (variables with_integer) [] [] []
    = Raise (IOError "NLPQL cannot handle integer design variables").
Proof.
  apply (variables_handling_first_offender [x1] []
           (mkVariable "x2" "i" (-10)%Z 10%Z (-4)%Z)).
  - intros w Hw [Hn|Hn]; apply list_elem_of_singleton in Hw as ->;
      discriminate Hn.
  - left. reflexivity.
Defined.

Lemma constraints_handling_shapes_sample :
  constraints_handling (constraints constrained) = Ok ([false], [false]) ∧
  (length (filter kind_known (constraints constrained))
     = length (constraints constrained)
   ↔ Forall kind_known (constraints constrained)).
Proof.
  apply (constraints_handling_shapes (constraints constrained)). discriminate.
Defined.

Lemma group_view_of_setup_table_sample :
  ∃ xn, group_view grouped
          (if use_groups grouped
           then make_group_ids (vargroups grouped) 0 ∅ else ∅) [1; 2; 3]%Z
        = Ok xn.
Proof.
  apply (group_view_of_setup_table grouped [1; 2; 3]%Z).
  unfold groups_size. simpl. lia.
Defined.

Lemma both_parallel_levels_refused_sample :
  ∃ msg, __solve__ both_levels constrained fresh
         = (Raise (NotImplementedError msg), fresh).
Proof.
  apply (both_parallel_levels_refused both_levels constrained fresh);
    reflexivity.
Defined.

Lemma parallel_without_mpi_sample :
  ∃ notice,
    __solve__ poa_without_mpi constrained fresh
      = (Raise (UnboundLocalError "MPI"), add_event (EvPrint notice) fresh).
Proof.
  apply (parallel_without_mpi poa_without_mpi constrained fresh);
    reflexivity.
Defined.

Lemma serial_solve_around_solver_sample :
  (__solve__ serial constrained fresh).1
    = Ok ([Real 16916%Z], [-3; -4]%Z, (0%Z, "Solution was found.")) ∧
  ∃ closed,
    trace (__solve__ serial constrained fresh).2
      = closed ++ [EvAddSol (0%Z, "Solution was found.") [-3; -4]%Z
                     [Real 16916%Z] [Real (-8)%Z] [0%Z]].
Proof.
  pose proof (serial_solve_around_solver serial constrained fresh
                [-10; -10]%Z [10; 10]%Z [-3; -4]%Z [false] [false])
    as Hsolve.
  destruct Hsolve as (_ & _ & _ & _ & Hok);
    [reflexivity|discriminate|reflexivity|reflexivity|reflexivity|].
  destruct (Hok (mkBackendResult [-3; -4]%Z [Real 16916%Z] [0%Z] 0)
                (Real 16916%Z) [Real (-8)%Z] 0%Z) as [_ Htext];
    [reflexivity..|].
  destruct (Htext "Solution was found.") as (_ & Hstored & _); [reflexivity|].
  destruct Hstored as [Hres Htrace];
    [reflexivity|by repeat constructor|simpl; lia|].
  split; [exact Hres|]. eexists. exact Htrace.
Defined.

(** The same solve with a solver that reports a code which the table of
    [__init__] does not hold. *)
Example serial_solve_unknown_inform :
  (__solve__ odd_inform constrained fresh).1 = Raise (KeyError "7") ∧
  last (trace (__solve__ odd_inform constrained fresh).2)
    = Some (EvObjFun (XFlat [-3; -4]%Z)).
Proof. by vm_compute. Qed.

(** The same solve of a problem that has a variable of a kind which the
    variables handling passes over: the point has no value for it. *)
Example serial_solve_unknown_kind :
  (__solve__ idle with_unknown_kind fresh).1 = Raise IndexError ∧
  trace (__solve__ idle with_unknown_kind fresh).2
    = [EvAlgencan; EvCloseUnit; EvObjFun (XFlat [-3; -4]%Z)].
Proof. by vm_compute. Qed.


(** What that call returns: the real part of the objective, and the
    constraint value as the user model gave it, complex. *)
Example evalfc_mixed_valued_long_buffer :
  (evalfc serial mixed_valued serial_closure 2 [-3; -4]%Z (Real 0%Z) 1
     [Real 0%Z; Real 9%Z] 0%Z fresh).1
  = Ok (Real 7%Z, [NpComplex64 3%Z 2%Z; Real 9%Z], 0%Z).
Proof. by vm_compute. Qed.

Lemma evalfc_builtin_complex_objective_sample :
  (evalfc serial builtin_valued serial_closure 2 [-3; -4]%Z (Real 0%Z) 1
     [Real 0%Z] 0%Z fresh).1
  = Raise (AttributeError "astype").
Proof.
  apply (evalfc_builtin_complex_objective serial builtin_valued
           serial_closure 2 [-3; -4]%Z (Real 0%Z) 1 [Real 0%Z] 0%Z fresh
           (XFlat [-3; -4]%Z) (PyComplex 7%Z 1%Z) [Real 3%Z] 0%Z);
    try reflexivity; exact I.
Defined.

Lemma evalfc_too_few_constraints_sample :
  (evalfc serial underreporting serial_closure 2 [-3; -4]%Z (Real 0%Z) 1
     [Real 0%Z] 0%Z fresh).1
  = Raise IndexError.
Proof.
  apply (evalfc_too_few_constraints serial underreporting serial_closure 2
           [-3; -4]%Z (Real 0%Z) 1 [Real 0%Z] 0%Z fresh
           (XFlat [-3; -4]%Z) (Real 16916%Z) [] 0%Z);
    try reflexivity.
  - simpl. tauto.
  - intros v Hv. by apply not_elem_of_nil in Hv.
  - simpl. lia.
Defined.

Lemma evalfc_falls_back_when_exhausted_sample :
  (evalfc serial constrained serial_closure 2 [-3; -4]%Z (Real 0%Z) 1
     [Real 0%Z] 0%Z replay_at_end).1
    = Ok (Real 16916%Z, [Real (-8)%Z], 0%Z) ∧
  h_start
    (evalfc serial constrained serial_closure 2 [-3; -4]%Z (Real 0%Z) 1
       [Real 0%Z] 0%Z replay_at_end).2 = false.
Proof.
  destruct (evalfc_falls_back_when_exhausted serial constrained
              serial_closure 2 [-3; -4]%Z (Real 0%Z) 1 [Real 0%Z] 0%Z
              replay_at_end (XFlat [-3; -4]%Z) ∅ (mkHistory "hist" ∅ true))
    as (Hout & Hlive & _); try reflexivity.
  split; [|exact Hlive]. rewrite Hout. reflexivity.
Defined.

Lemma live_solve_stays_live_sample :
  h_start
    (evalfc serial constrained serial_closure 2 [-3; -4]%Z (Real 0%Z) 1
       [Real 0%Z] 0%Z fresh).2 = false ∧
  h_start
    (evalgjac serial constrained serial_closure 2 [-3; -4]%Z
       [Real 0%Z; Real 0%Z] 1 [0; 0]%Z [0; 0]%Z [Real 0%Z; Real 0%Z] 0 0%Z
       fresh).2 = false.
Proof.
  destruct (live_solve_stays_live serial constrained serial_closure fresh 2
              [-3; -4]%Z (Real 0%Z) 1 [Real 0%Z] 0%Z [Real 0%Z; Real 0%Z]
              [0; 0]%Z [0; 0]%Z [Real 0%Z; Real 0%Z] 0)
    as (Hfc & Hgjac & _); [reflexivity|].
  split; [|exact Hgjac]. by apply Hfc.
Defined.

Lemma evalgjac_calls_model_flat_sample :
  ∃ rest,
    trace (evalgjac serial grouped grouped_closure 3 [1; 2; 3]%Z
             [Real 0%Z; Real 0%Z; Real 0%Z] 1 [0; 0; 0]%Z [0; 0; 0]%Z
             [Real 0%Z; Real 0%Z; Real 0%Z] 0 0%Z fresh).2
      = trace fresh ++ EvObjFun (XFlat [1; 2; 3]%Z) :: rest.
Proof.
  apply (evalgjac_calls_model_flat serial grouped grouped_closure).
  reflexivity.
Defined.

Lemma evalgjac_objective_gradient_sample :
  ∃ ff gg dff dgg,
    obj_fun constrained (XFlat [-3; -4]%Z) = Ok (ff, gg, 0%Z) ∧
    getGrad serial [-3; -4]%Z (group_ids serial_closure) [ff] gg
      = Ok (dff, dgg) ∧
    length [Real (-15608)%Z; Real (-2600)%Z] = length [Real 0%Z; Real 0%Z] ∧
    length [1; 1]%Z = length [0; 0]%Z ∧
    length [1; 2]%Z = length [0; 0]%Z ∧
    length [Real 1%Z; Real 1%Z] = length [Real 0%Z; Real 0%Z] ∧
    (length (variables constrained) ≤ length [Real 0%Z; Real 0%Z])%nat ∧
    (length (constraints constrained) * length (variables constrained)
       ≤ length [0; 0]%Z)%nat ∧
    (length (constraints constrained) * length (variables constrained)
       ≤ length [0; 0]%Z)%nat ∧
    (length (constraints constrained) * length (variables constrained)
       ≤ length [Real 0%Z; Real 0%Z])%nat ∧
    (∀ i, (i < length (variables constrained))%nat →
          ∃ v, getitem2 dff 0 i = Ok v ∧
               [Real (-15608)%Z; Real (-2600)%Z] !! i = Some v) ∧
    (∀ i, (length (variables constrained) ≤ i)%nat →
          [Real (-15608)%Z; Real (-2600)%Z] !! i
            = [Real 0%Z; Real 0%Z] !! i).
Proof.
  apply (evalgjac_objective_gradient serial constrained serial_closure 2
           [-3; -4]%Z [Real 0%Z; Real 0%Z] 1 [0; 0]%Z [0; 0]%Z
           [Real 0%Z; Real 0%Z] 0 0%Z fresh
           [Real (-15608)%Z; Real (-2600)%Z] [1; 1]%Z [1; 2]%Z
           [Real 1%Z; Real 1%Z] 2 0%Z
           (evalgjac serial constrained serial_closure 2
              [-3; -4]%Z [Real 0%Z; Real 0%Z] 1 [0; 0]%Z [0; 0]%Z
              [Real 0%Z; Real 0%Z] 0 0%Z fresh).2).
  vm_compute. reflexivity.
Defined.

Lemma evalgjac_logs_gradients_sample :
  log_writes
    (trace (evalgjac serial constrained serial_closure 2 [-3; -4]%Z
              [Real 0%Z; Real 0%Z] 1 [0; 0]%Z [0; 0]%Z
              [Real 0%Z; Real 0%Z] 0 0%Z recording).2)
  = [(PMat [[Real (-15608)%Z; Real (-2600)%Z]], "grad_obj");
     (PMat [[Real 1%Z; Real 1%Z]], "grad_con")].
Proof.
  apply (evalgjac_logs_gradients serial constrained serial_closure 2
           [-3; -4]%Z [Real 0%Z; Real 0%Z] 1 [0; 0]%Z [0; 0]%Z
           [Real 0%Z; Real 0%Z] 0 0%Z recording
           (Real 16916%Z) [Real (-8)%Z] 0%Z);
    reflexivity.
Defined.

Lemma close_history_without_promotion_sample :
  (close_history 1 true to_promote).1 = Ok tt ∧
  fs (close_history 1 true to_promote).2 = fs to_promote ∧
  trace (close_history 1 true to_promote).2 = [].
Proof.
  apply (close_history_without_promotion 1 true to_promote). left. lia.
Defined.

Lemma promotion_without_index_sample :
  (close_history 0 true recording).1 = Raise (OSError "hist.cue") ∧
  fs (close_history 0 true recording).2 = fs recording.
Proof.
  apply (promotion_without_index recording); reflexivity.
Defined.

Lemma promotion_without_temporary_log_sample :
  (close_history 0 true without_temporary).1
    = Raise (OSError "hist_tmp.cue") ∧
  fs (close_history 0 true without_temporary).2
    = delete "hist.bin" (delete "hist.cue" (fs without_temporary)) ∧
  canonical_log "hist" (fs (close_history 0 true without_temporary).2) = None.
Proof.
  apply (promotion_without_temporary_log without_temporary
           "old index" "old data"); reflexivity.
Defined.

Lemma promotion_keeps_other_files_sample :
  fs (close_history 0 true with_bystander).2 !! "notes.txt" = Some "kept".
Proof.
  apply (promotion_keeps_other_files with_bystander
           "old index" "old data" "new index" "new data" "notes.txt");
    try reflexivity; discriminate.
Defined.

Lemma rosenbrock_objfunc_short_sample :
  rosenbrock_objfunc (XFlat [5%Z]) = Raise IndexError.
Proof. apply (rosenbrock_objfunc_short [5%Z]). simpl. lia. Defined.

End SampleRuns.
